(** * HR-policy RAG pipeline: a shallow embedding of [rag_pipeline.py]

    The development follows the Python module function by function:
    date extraction (regular expressions over the document text and the
    file name, [datetime.strptime]), chunking with per-chunk metadata
    copies, noise filtering, conflict resolution by recency, answer
    composition and the pipeline driver.

    Modelling conventions.
    - A Python [str] is a list of 8-bit characters, read as the code points
      U+0000..U+00FF; the character classes below are Python's Unicode
      classes restricted to that range.
    - A Python exception is a value of [exn]; code that may raise lives in
      the error monad [result], code that touches objects with identity
      (the metadata dictionaries) or the outside world lives in the
      state-and-error monad [M].
    - Library functions ([re], [datetime], [list.sort]) are modelled by
      their documented behaviour; the parts of the environment that the
      module only calls (file system, vector index, language model,
      [datetime.fromisoformat]) are section variables.
    - Diagnostic [print] calls are left out, except where they can raise
      and in [run_pipeline], whose output is its observable result. *)

From Stdlib Require Import Ascii String List ZArith Lia Bool.
From stdpp Require Import gmap strings list.
Import ListNotations.

Set Default Proof Using "Type".

(** ** Exceptions and the error monad *)

Inductive exn : Type :=
| ValueError
| TypeError
| KeyError
| IndexError.

Inductive result (A : Type) : Type :=
| Ok (a : A)
| Raise (e : exn).
Arguments Ok {A} a.
Arguments Raise {A} e.

Global Instance result_ret : MRet result := fun A a => Ok a.
Global Instance result_bind : MBind result := fun A B f m =>
  match m with
  | Ok a => f a
  | Raise e => Raise e
  end.
Global Instance result_fmap : FMap result := fun A B f m =>
  match m with
  | Ok a => Ok (f a)
  | Raise e => Raise e
  end.

(** [try: body except ValueError: handler] *)
Definition try_except_ValueError {A} (body : result A) (handler : result A) : result A :=
  match body with
  | Raise ValueError => handler
  | other => other
  end.

(** ** Strings *)

Definition str : Type := list ascii.

(** A string literal of the source. *)
Definition chars (s : string) : str := list_ascii_of_string s.

Definition code (c : ascii) : N := N_of_ascii c.

Definition in_range (lo hi : N) (c : ascii) : bool :=
  (N.leb lo (code c) && N.leb (code c) hi)%bool.

Definition newline : ascii := ascii_of_N 10.

(** [\d]: the decimal digits (category Nd) below U+0100 are 0..9. *)
Definition is_digit (c : ascii) : bool := in_range 48 57 c.

(** [str.isspace], also [\s]: TAB..CR, FS..US, space, NEL and NBSP. *)
Definition is_space (c : ascii) : bool :=
  (in_range 9 13 c || in_range 28 32 c || N.eqb (code c) 133 || N.eqb (code c) 160)%bool.

Definition is_upper_ascii (c : ascii) : bool := in_range 65 90 c.
Definition is_lower_ascii (c : ascii) : bool := in_range 97 122 c.

(** [[A-Za-z]] *)
Definition is_alpha (c : ascii) : bool := (is_upper_ascii c || is_lower_ascii c)%bool.

(** [\w]: alphanumeric (alpha, decimal, digit or numeric) or underscore. *)
Definition is_word (c : ascii) : bool :=
  (is_alpha c || is_digit c || N.eqb (code c) 95
   || N.eqb (code c) 170 || in_range 178 179 c || N.eqb (code c) 181
   || in_range 185 186 c || in_range 188 190 c
   || in_range 192 214 c || in_range 216 246 c || in_range 248 255 c)%bool.

(** [str.lower] on one character: A..Z and the Latin-1 capitals. *)
Definition lower_char (c : ascii) : ascii :=
  if (is_upper_ascii c || in_range 192 214 c || in_range 216 222 c)%bool
  then ascii_of_N (code c + 32) else c.

Definition lower (s : str) : str := map lower_char s.

Definition ascii_eqb (a b : ascii) : bool := N.eqb (code a) (code b).

Fixpoint str_eqb (a b : str) : bool :=
  match a, b with
  | [], [] => true
  | x :: a', y :: b' => (ascii_eqb x y && str_eqb a' b')%bool
  | _, _ => false
  end.

(** [s.startswith(p)] *)
Fixpoint startswith (p s : str) : bool :=
  match p, s with
  | [], _ => true
  | x :: p', y :: s' => (ascii_eqb x y && startswith p' s')%bool
  | _ :: _, [] => false
  end.

(** [p in s] *)
Fixpoint contains (p s : str) : bool :=
  (startswith p s || match s with [] => false | _ :: s' => contains p s' end)%bool.

Fixpoint lstrip (s : str) : str :=
  match s with
  | c :: s' => if is_space c then lstrip s' else s
  | [] => []
  end.

Definition rstrip (s : str) : str := rev (lstrip (rev s)).

(** [s.strip()] *)
Definition strip (s : str) : str := rstrip (lstrip s).

(** [s.split("\n")] *)
Fixpoint split_lines (s : str) : list str :=
  match s with
  | [] => [[]]
  | c :: s' =>
      if ascii_eqb c newline then [] :: split_lines s'
      else match split_lines s' with
           | l :: ls => (c :: l) :: ls
           | [] => [[c]]
           end
  end.

(** [s.replace(c, "")] for a one-character [c] *)
Definition remove_char (c : ascii) (s : str) : str :=
  List.filter (fun x => negb (ascii_eqb x c)) s.

Definition digit_val (c : ascii) : Z := Z.of_N (code c) - 48.

(** The value of a run of decimal digits, most significant first. *)
Definition digits_val (s : str) : Z :=
  fold_left (fun acc c => (10 * acc + digit_val c)%Z) s 0%Z.

(** [int(s)] on the strings the module passes to it, which are runs of
    digits captured by [\d]; any other argument is a [ValueError] here
    (Python also accepts signs, blanks and underscores). *)
Definition py_int (s : str) : result Z :=
  match s with
  | [] => Raise ValueError
  | _ => if forallb is_digit s then Ok (digits_val s) else Raise ValueError
  end.

(** ** Regular expressions: the fragment of [re] the module uses

    Quantifiers only ever apply to a single character class in the
    module's patterns, which keeps the backtracking matcher structural. *)

Inductive cset : Type :=
| CDigit                      (* \d *)
| CSpace                      (* \s *)
| CAlpha                      (* [A-Za-z] *)
| CAny                        (* .  (no DOTALL) *)
| COneOf (l : list ascii).    (* [...] of listed characters *)

Inductive regex : Type :=
| RChr (c : ascii)
| RSet (cs : cset)
| RRep (cs : cset) (lo : nat) (hi : option nat) (greedy : bool)
| RCat (r1 r2 : regex)
| RAlt (r1 r2 : regex)
| RGrp (n : nat) (r : regex)
| RWordB
| REmpty.

(** A position in the subject: the character before it, the text from it
    on, and the groups captured so far (most recent first). *)
Record mstate : Type := MState {
  before : option ascii;
  rest : str;
  caps : list (nat * str)
}.

(** Literal comparison; under IGNORECASE both sides are lowered. *)
Definition chr_match (ic : bool) (c x : ascii) : bool :=
  if ic then ascii_eqb (lower_char c) (lower_char x) else ascii_eqb c x.

Definition cset_mem (ic : bool) (cs : cset) (x : ascii) : bool :=
  match cs with
  | CDigit => is_digit x
  | CSpace => is_space x
  | CAlpha => is_alpha x
  | CAny => negb (ascii_eqb x newline)
  | COneOf l => existsb (fun c => chr_match ic c x) l
  end.

Definition can_take (hi : option nat) : bool :=
  match hi with
  | Some O => false
  | _ => true
  end.

Definition one_less (hi : option nat) : option nat :=
  match hi with
  | Some n => Some (pred n)
  | None => None
  end.

(** [x{lo,hi}] (greedy) and [x{lo,hi}?] (lazy) over a class [p], with the
    continuation [k] deciding whether the rest of the pattern matches. *)
Fixpoint rep {R} (p : ascii -> bool) (greedy : bool) (lo : nat) (hi : option nat)
    (b : option ascii) (s : str) (k : option ascii -> str -> option R) : option R :=
  let stop := match lo with O => k b s | S _ => None end in
  let more :=
    match s with
    | c :: s' =>
        if (p c && can_take hi)%bool
        then rep p greedy (pred lo) (one_less hi) (Some c) s' k
        else None
    | [] => None
    end in
  if greedy
  then match more with Some x => Some x | None => stop end
  else match stop with Some x => Some x | None => more end.

Definition is_word_at (o : option ascii) : bool :=
  match o with
  | Some c => is_word c
  | None => false
  end.

(** The text consumed between two positions of one subject. *)
Definition consumed (s s' : str) : str := take (length s - length s') s.
Global Arguments consumed : simpl never.

(** The backtracking matcher, leftmost alternative and greedy choice first. *)
Fixpoint rmatch {R} (ic : bool) (r : regex) (st : mstate)
    (k : mstate -> option R) : option R :=
  match r with
  | RChr c =>
      match rest st with
      | x :: s' => if chr_match ic c x then k (MState (Some x) s' (caps st)) else None
      | [] => None
      end
  | RSet cs =>
      match rest st with
      | x :: s' => if cset_mem ic cs x then k (MState (Some x) s' (caps st)) else None
      | [] => None
      end
  | RRep cs lo hi greedy =>
      rep (cset_mem ic cs) greedy lo hi (before st) (rest st)
          (fun b s' => k (MState b s' (caps st)))
  | RCat r1 r2 => rmatch ic r1 st (fun st1 => rmatch ic r2 st1 k)
  | RAlt r1 r2 =>
      match rmatch ic r1 st k with
      | Some x => Some x
      | None => rmatch ic r2 st k
      end
  | RGrp n r1 =>
      rmatch ic r1 st
        (fun st1 => k (MState (before st1) (rest st1)
                         ((n, consumed (rest st) (rest st1)) :: caps st1)))
  | RWordB =>
      if xorb (is_word_at (before st)) (is_word_at (head (rest st)))
      then k st else None
  | REmpty => k st
  end.

(** A match object: where it starts, and the position where it ends. *)
Record re_match : Type := ReMatch {
  m_start : nat;
  m_end : mstate
}.

(** [match.group(n)]: [None] when the group took no part in the match. *)
Fixpoint assoc (n : nat) (l : list (nat * str)) : option str :=
  match l with
  | [] => None
  | (i, v) :: l' => if Nat.eqb i n then Some v else assoc n l'
  end.

Definition group (m : re_match) (n : nat) : option str := assoc n (caps (m_end m)).

Definition match_here (ic : bool) (r : regex) (b : option ascii) (s : str) : option mstate :=
  rmatch ic r (MState b s []) Some.

Fixpoint search_from (ic : bool) (r : regex) (b : option ascii) (s : str)
    (pos : nat) : option re_match :=
  match match_here ic r b s with
  | Some st => Some (ReMatch pos st)
  | None =>
      match s with
      | c :: s' => search_from ic r (Some c) s' (S pos)
      | [] => None
      end
  end.

(** [re.search(r, s)], with [ic] for [re.IGNORECASE] *)
Definition re_search (ic : bool) (r : regex) (s : str) : option re_match :=
  search_from ic r None s 0.

(** [re.sub(r, "", s)]: every non-overlapping match, leftmost first, is
    deleted.  [skip] counts the characters of the current match still to
    be dropped. *)
Fixpoint sub_from (ic : bool) (r : regex) (b : option ascii) (s : str)
    (skip : nat) : str :=
  match skip with
  | S n =>
      match s with
      | c :: s' => sub_from ic r (Some c) s' n
      | [] => []
      end
  | O =>
      match match_here ic r b s with
      | Some st =>
          match s with
          | c :: s' =>
              match length s - length (rest st) with
              | O => c :: sub_from ic r (Some c) s' 0
              | S n => sub_from ic r (Some c) s' n
              end
          | [] => []
          end
      | None =>
          match s with
          | c :: s' => c :: sub_from ic r (Some c) s' 0
          | [] => []
          end
      end
  end.

Definition re_sub_delete (ic : bool) (r : regex) (s : str) : str :=
  sub_from ic r None s 0.

(** Pattern-building helpers. *)
Fixpoint rlit (s : str) : regex :=
  match s with
  | [] => REmpty
  | [c] => RChr c
  | c :: s' => RCat (RChr c) (rlit s')
  end.

Fixpoint rseq (l : list regex) : regex :=
  match l with
  | [] => REmpty
  | [r] => r
  | r :: l' => RCat r (rseq l')
  end.

Fixpoint ralt (l : list regex) : regex :=
  match l with
  | [] => REmpty
  | [r] => r
  | r :: l' => RAlt r (ralt l')
  end.

Definition rstar (cs : cset) : regex := RRep cs 0 None true.
Definition rplus (cs : cset) : regex := RRep cs 1 None true.
Definition rexact (cs : cset) (n : nat) : regex := RRep cs n (Some n) true.

(** ** [datetime] *)

Record datetime : Type := DateTime {
  year : Z;
  month : Z;
  day : Z;
  hour : Z;
  minute : Z;
  second : Z;
  microsecond : Z;
  utcoffset : option Z   (* [None] for a naive value, else the offset in microseconds *)
}.

Definition is_leap (y : Z) : bool :=
  ((y mod 4 =? 0) && (negb (y mod 100 =? 0) || (y mod 400 =? 0)))%Z%bool.

Definition days_in_month (y m : Z) : Z :=
  if (m =? 2)%Z then (if is_leap y then 29 else 28)%Z
  else if ((m =? 4) || (m =? 6) || (m =? 9) || (m =? 11))%Z%bool then 30%Z
  else 31%Z.

(** [datetime(year, month, day)] *)
Definition datetime_new (y m d : Z) : result datetime :=
  if ((1 <=? y) && (y <=? 9999) && (1 <=? m) && (m <=? 12)
      && (1 <=? d) && (d <=? days_in_month y m))%Z%bool
  then Ok (DateTime y m d 0 0 0 0 None)
  else Raise ValueError.

Definition days_before_year (y : Z) : Z :=
  ((y - 1) * 365 + (y - 1) / 4 - (y - 1) / 100 + (y - 1) / 400)%Z.

Fixpoint days_before_month_aux (y : Z) (n : nat) : Z :=
  match n with
  | O => 0%Z
  | S n' => (days_before_month_aux y n' + days_in_month y (Z.of_nat n))%Z
  end.

Definition days_before_month (y m : Z) : Z :=
  days_before_month_aux y (Z.to_nat (m - 1)).

Definition toordinal (d : datetime) : Z :=
  (days_before_year (year d) + days_before_month (year d) (month d) + day d)%Z.

(** Microseconds on the time line: local for a naive value, UTC for an
    aware one.  On valid field values this orders naive values as Python's
    field-by-field comparison does. *)
Definition dt_key (d : datetime) : Z :=
  ((((toordinal d * 24 + hour d) * 60 + minute d) * 60 + second d) * 1000000
   + microsecond d - default 0 (utcoffset d))%Z.

Global Arguments dt_key : simpl never.

(** [a < b]: comparing a naive with an aware value is a [TypeError]. *)
Definition dt_lt (a b : datetime) : result bool :=
  match utcoffset a, utcoffset b with
  | None, None | Some _, Some _ => Ok (dt_key a <? dt_key b)%Z
  | _, _ => Raise TypeError
  end.

(** *** [datetime.strptime] for the directives the module uses

    As in CPython's [_strptime]: the format is compiled to a regular
    expression (blanks become [\s+], a directive becomes a named group),
    matched case-insensitively at the start of the data, which it must
    consume entirely; the fields found are then checked by the date
    constructor.  Month names are those of the C locale. *)

Definition G_b : nat := 1.
Definition G_B : nat := 2.
Definition G_d : nat := 3.
Definition G_Y : nat := 4.

Definition month_abbr : list string :=
  ["jan"; "feb"; "mar"; "apr"; "may"; "jun"; "jul"; "aug"; "sep"; "oct"; "nov"; "dec"]%string.

Definition month_name : list string :=
  ["january"; "february"; "march"; "april"; "may"; "june"; "july"; "august";
   "september"; "october"; "november"; "december"]%string.

(** [month_name] as [_strptime] orders the alternatives: longest first. *)
Definition month_name_by_length : list string :=
  ["september"; "february"; "november"; "december"; "january"; "october";
   "august"; "march"; "april"; "june"; "july"; "may"]%string.

Definition nonzero_digit : cset := COneOf (chars "123456789").

Definition directive (d : ascii) : option regex :=
  if ascii_eqb d "b" then
    Some (RGrp G_b (ralt (map (fun s => rlit (chars s)) month_abbr)))
  else if ascii_eqb d "B" then
    Some (RGrp G_B (ralt (map (fun s => rlit (chars s)) month_name_by_length)))
  else if ascii_eqb d "d" then
    Some (RGrp G_d (ralt [RCat (RChr "3") (RSet (COneOf (chars "01")));
                          RCat (RSet (COneOf (chars "12"))) (RSet CDigit);
                          RCat (RChr "0") (RSet nonzero_digit);
                          RSet nonzero_digit;
                          RCat (RChr " ") (RSet nonzero_digit)]))
  else if ascii_eqb d "Y" then
    Some (RGrp G_Y (rseq [RSet CDigit; RSet CDigit; RSet CDigit; RSet CDigit]))
  else None.

Fixpoint format_regex (ws : bool) (fmt : str) : option (list regex) :=
  match fmt with
  | [] => Some []
  | c :: fmt' =>
      if is_space c then
        if ws then format_regex true fmt'
        else cons (rplus CSpace) <$> format_regex true fmt'
      else if ascii_eqb c "%" then
        match fmt' with
        | d :: fmt'' =>
            match directive d with
            | Some r => cons r <$> format_regex false fmt''
            | None => None
            end
        | [] => None
        end
      else cons (RChr c) <$> format_regex false fmt'
  end.

Fixpoint index_of (x : str) (l : list string) (i : Z) : option Z :=
  match l with
  | [] => None
  | y :: l' => if str_eqb x (chars y) then Some i else index_of x l' (i + 1)%Z
  end.

Definition found_month (caps : list (nat * str)) : Z :=
  match assoc G_B caps with
  | Some g => default 1%Z (index_of (lower g) month_name 1)
  | None =>
      match assoc G_b caps with
      | Some g => default 1%Z (index_of (lower g) month_abbr 1)
      | None => 1%Z
      end
  end.

Definition found_day (caps : list (nat * str)) : Z :=
  match assoc G_d caps with
  | Some g => digits_val (strip g)
  | None => 1%Z
  end.

Definition found_year (caps : list (nat * str)) : Z :=
  match assoc G_Y caps with
  | Some g => digits_val g
  | None => 1900%Z
  end.

Definition strptime (data : str) (fmt : string) : result datetime :=
  match format_regex false (chars fmt) with
  | None => Raise ValueError
  | Some rs =>
      match match_here true (rseq rs) None data with
      | None => Raise ValueError
      | Some st =>
          match rest st with
          | _ :: _ => Raise ValueError       (* unconverted data remains *)
          | [] => datetime_new (found_year (caps st)) (found_month (caps st))
                               (found_day (caps st))
          end
      end
  end.

(** ** Utility functions of the module *)

(** [classify_document] *)
Definition classify_document (filename : str) : str :=
  if contains (chars "policy") (lower filename) then chars "policy" else chars "noise".

(** [int(match.group(n))]; [int(None)] is a [TypeError]. *)
Definition int_group (m : re_match) (n : nat) : result Z :=
  match group m n with
  | Some g => py_int g
  | None => Raise TypeError
  end.

(** [match.group(n)] used as a string; on [None] the string operations
    of the module ([strptime], slicing, [replace]) raise [TypeError]. *)
Definition str_group (m : re_match) (n : nat) : result str :=
  match group m n with
  | Some g => Ok g
  | None => Raise TypeError
  end.

(** A strategy falls through to the next one when it returns [None]. *)
Definition or_else {A} (first next : result (option A)) : result (option A) :=
  o ← first;
  match o with
  | Some a => mret (Some a)
  | None => next
  end.

Definition in_2000_2099 (y : Z) : bool := ((2000 <=? y) && (y <=? 2099))%Z%bool.

Definition dash_or_underscore : cset := COneOf (chars "-_").

(** [(\d{4})] *)
Definition re_year : regex := RGrp 1 (rexact CDigit 4).

(** [(\d{4})[-_](\d{2})[-_](\d{2})] *)
Definition re_full_date : regex :=
  rseq [RGrp 1 (rexact CDigit 4); RSet dash_or_underscore;
        RGrp 2 (rexact CDigit 2); RSet dash_or_underscore;
        RGrp 3 (rexact CDigit 2)].

(** [([A-Za-z]{3,9})[-_](\d{4})] *)
Definition re_month_year : regex :=
  rseq [RGrp 1 (RRep CAlpha 3 (Some 9) true); RSet dash_or_underscore;
        RGrp 2 (rexact CDigit 4)].

Definition month_map : gmap string Z :=
  list_to_map
    [("jan", 1); ("feb", 2); ("mar", 3); ("apr", 4);
     ("may", 5); ("jun", 6); ("jul", 7); ("aug", 8);
     ("sep", 9); ("oct", 10); ("nov", 11); ("dec", 12)]%string%Z.

(** Pattern 1: YYYY (just year) *)
Definition filename_year (filename : str) : result (option datetime) :=
  match re_search false re_year filename with
  | Some m =>
      y ← int_group m 1;
      if in_2000_2099 y then Some <$> datetime_new y 1 1 else mret None
  | None => mret None
  end.

(** Pattern 2: YYYY_MM_DD or YYYY-MM-DD *)
Definition filename_full_date (filename : str) : result (option datetime) :=
  match re_search false re_full_date filename with
  | Some m =>
      try_except_ValueError
        (y ← int_group m 1; mo ← int_group m 2; d ← int_group m 3;
         Some <$> datetime_new y mo d)
        (mret None)
  | None => mret None
  end.

(** Pattern 3: Month_YYYY (e.g., Jan_2024) *)
Definition filename_month_year (filename : str) : result (option datetime) :=
  match re_search false re_month_year (lower filename) with
  | Some m =>
      g ← str_group m 1;
      let month_str := take 3 g in
      y ← int_group m 2;
      match month_map !! string_of_list_ascii month_str with
      | Some mo =>
          if in_2000_2099 y then Some <$> datetime_new y mo 1 else mret None
      | None => mret None
      end
  | None => mret None
  end.

(** [extract_date_from_filename] *)
Definition extract_date_from_filename (filename : str) : result (option datetime) :=
  or_else (filename_year filename)
    (or_else (filename_full_date filename)
       (filename_month_year filename)).

(** [[A-Za-z]+\s+\d{1,2},\s+\d{4}] *)
Definition re_month_day_year : regex :=
  rseq [rplus CAlpha; rplus CSpace; RRep CDigit 1 (Some 2) true; RChr ",";
        rplus CSpace; rexact CDigit 4].

(** [Effective Date:\s*([A-Za-z]+\s+\d{1,2},\s+\d{4})] *)
Definition re_effective : regex :=
  rseq [rlit (chars "Effective Date:"); rstar CSpace; RGrp 1 re_month_day_year].

(** [\(Effective Date:\s*([A-Za-z]+\s+\d{1,2},\s+\d{4})\)] *)
Definition re_effective_paren : regex :=
  rseq [RChr "("; rlit (chars "Effective Date:"); rstar CSpace;
        RGrp 1 re_month_day_year; RChr ")"].

(** [(?:Updated|Last Updated):\s*([A-Za-z]+\s+\d{4})] *)
Definition re_updated : regex :=
  rseq [RAlt (rlit (chars "Updated")) (rlit (chars "Last Updated")); RChr ":";
        rstar CSpace;
        RGrp 1 (rseq [rplus CAlpha; rplus CSpace; rexact CDigit 4])].

(** [(?:As of|Valid from|Issued):\s*([A-Za-z]+\s+\d{1,2}?,?\s+\d{4})] *)
Definition re_as_of : regex :=
  rseq [ralt [rlit (chars "As of"); rlit (chars "Valid from"); rlit (chars "Issued")];
        RChr ":"; rstar CSpace;
        RGrp 1 (rseq [rplus CAlpha; rplus CSpace; RRep CDigit 1 (Some 2) false;
                      RRep (COneOf (chars ",")) 0 (Some 1) true;
                      rplus CSpace; rexact CDigit 4])].

(** [\b(20\d{2})\b] *)
Definition re_year20 : regex :=
  rseq [RWordB; RGrp 1 (RCat (rlit (chars "20")) (rexact CDigit 2)); RWordB].

(** [try: return strptime(...); except ValueError: pass] *)
Definition try_strptime (data : str) (fmt : string) : result (option datetime) :=
  try_except_ValueError (Some <$> strptime data fmt) (mret None).

(** Pattern 1: "Effective Date: Jan 1, 2024" *)
Definition content_effective (text : str) : result (option datetime) :=
  match re_search true re_effective text with
  | Some m => g ← str_group m 1; try_strptime g "%b %d, %Y"
  | None => mret None
  end.

(** Pattern 2: "(Effective Date: Jan 1, 2024)" with parentheses *)
Definition content_effective_paren (text : str) : result (option datetime) :=
  match re_search true re_effective_paren text with
  | Some m => g ← str_group m 1; try_strptime g "%b %d, %Y"
  | None => mret None
  end.

(** Pattern 3: "Updated: Jan 2024" or "Last Updated: January 2024" *)
Definition content_updated (text : str) : result (option datetime) :=
  match re_search true re_updated text with
  | Some m =>
      g ← str_group m 1;
      try_except_ValueError (Some <$> strptime g "%B %Y") (try_strptime g "%b %Y")
  | None => mret None
  end.

(** [for fmt in fmts: try: return strptime(date_str, fmt); except ValueError: continue] *)
Fixpoint first_format (date_str : str) (fmts : list string) : result (option datetime) :=
  match fmts with
  | [] => mret None
  | fmt :: fmts' => or_else (try_strptime date_str fmt) (first_format date_str fmts')
  end.

(** Pattern 4: "As of January 2024" or "Valid from: Jan 1, 2024" *)
Definition content_as_of (text : str) : result (option datetime) :=
  match re_search true re_as_of text with
  | Some m =>
      g ← str_group m 1;
      let date_str := strip (remove_char "," g) in
      first_format date_str ["%B %d %Y"; "%b %d %Y"; "%B %Y"; "%b %Y"]%string
  | None => mret None
  end.

(** Pattern 5: just a year in the first few lines (fallback) *)
Definition content_year (text : str) : result (option datetime) :=
  let first_200_chars := take 200 text in
  match re_search false re_year20 first_200_chars with
  | Some m => y ← int_group m 1; Some <$> datetime_new y 1 1
  | None => mret None
  end.

(** [extract_date_from_content] *)
Definition extract_date_from_content (text : str) : result (option datetime) :=
  or_else (content_effective text)
    (or_else (content_effective_paren text)
       (or_else (content_updated text)
          (or_else (content_as_of text)
             (content_year text)))).

(** ** Objects, the heap and the world

    A metadata dictionary is a mutable object: it lives in the heap under
    a location, and [Document]s and [Chunk]s hold the location.  Two
    records that hold the same location share the dictionary. *)

Definition loc : Type := nat.

Inductive event : Type :=
| Stdout (line : str)          (* a line written by [print] *)
| LLMInvoke (prompt : str)     (* a call of the language model *)
| IndexSaved.                  (* [vector_store.save_local] *)

Record world : Type := World {
  heap : gmap loc (gmap string str);
  trace : list event             (* most recent event last *)
}.

Definition M (A : Type) : Type := world -> result A * world.

Global Instance M_ret : MRet M := fun A a w => (Ok a, w).
Global Instance M_bind : MBind M := fun A B f m w =>
  match m w with
  | (Ok a, w') => f a w'
  | (Raise e, w') => (Raise e, w')
  end.

Definition lift {A} (r : result A) : M A := fun w => (r, w).

(** A dictionary literal or [d.copy()]: a new object. *)
Definition new_dict (d : gmap string str) : M loc := fun w =>
  let l := fresh (dom (heap w)) in
  (Ok l, World (<[l := d]> (heap w)) (trace w)).

(** The dictionary behind a location (no dangling location arises in
    Python; here one reads as the empty dictionary). *)
Definition read_dict (l : loc) : M (gmap string str) := fun w =>
  (Ok (default ∅ (heap w !! l)), w).

Definition dict_copy (l : loc) : M loc := d ← read_dict l; new_dict d.

(** [d[k]] *)
Definition dict_getitem (d : gmap string str) (k : string) : result str :=
  match d !! k with
  | Some v => Ok v
  | None => Raise KeyError
  end.

(** [l[i]] *)
Definition list_getitem {A} (l : list A) (i : nat) : result A :=
  match l !! i with
  | Some x => Ok x
  | None => Raise IndexError
  end.

Definition emit (e : event) : M unit := fun w =>
  (Ok tt, World (heap w) (trace w ++ [e])).

Definition print (line : str) : M unit := emit (Stdout line).

Module Document.
Record t : Type := Make { content : str; metadata : loc }.
End Document.

Module Chunk.
Record t : Type := Make { text : str; metadata : loc }.
End Chunk.

(** Configuration *)
Definition FAISS_INDEX_DIR : str := chars "faiss_index".
Definition KNOWLEDGE_BASE_DIR : str := chars "knowledge_base".
Definition CHUNK_SIZE : nat := 500.
Definition TOP_K : nat := 4.

Definition nonempty {A} (l : list A) : bool :=
  match l with
  | [] => false
  | _ :: _ => true
  end.

(** ** Chunking *)

(** [[p.strip() for p in content.split("\n") if p.strip()]] *)
Definition paragraphs (content : str) : list str :=
  map strip (List.filter (fun p => nonempty (strip p)) (split_lines content)).

(** The inner loop over the paragraphs of one document, and the flush
    after it; [md] is the document's metadata, [buffer] the text
    accumulated so far. *)
Fixpoint chunk_paragraphs (md : loc) (paras : list str) (buffer : str) : M (list Chunk.t) :=
  match paras with
  | para :: paras' =>
      if (length buffer + length para <=? CHUNK_SIZE)%nat
      then chunk_paragraphs md paras' (buffer ++ chars " " ++ para)
      else
        m ← dict_copy md;
        later ← chunk_paragraphs md paras' para;
        mret (Chunk.Make (strip buffer) m :: later)
  | [] =>
      if nonempty buffer
      then m ← dict_copy md; mret [Chunk.Make (strip buffer) m]
      else mret []
  end.

(** [chunk_documents] *)
Fixpoint chunk_documents (documents : list Document.t) : M (list Chunk.t) :=
  match documents with
  | doc :: documents' =>
      here ← chunk_paragraphs (Document.metadata doc)
               (paragraphs (Document.content doc)) [];
      later ← chunk_documents documents';
      mret (here ++ later)
  | [] => mret []
  end.

(** ** Noise filtering *)

Definition is_policy (md : gmap string str) : bool :=
  match md !! "doc_type"%string with
  | Some v => str_eqb v (chars "policy")
  | None => false
  end.

(** [filter_noise]: the comprehension, element by element. *)
Fixpoint filter_noise (chunks : list Chunk.t) : M (list Chunk.t) :=
  match chunks with
  | chunk :: chunks' =>
      md ← read_dict (Chunk.metadata chunk);
      later ← filter_noise chunks';
      mret (if is_policy md then chunk :: later else later)
  | [] => mret []
  end.

(** The number the function reports as filtered out. *)
Definition noise_count (chunks filtered : list Chunk.t) : nat :=
  length chunks - length filtered.

(** ** Conflict resolution *)

(** [list.sort(key=..., reverse=True)] on the (date, chunk) pairs: a
    stable sort, newest first; an element stays in front of the elements
    after it unless its key is smaller.  A comparison that raises makes
    the sort raise. *)
Fixpoint insert_desc (x : datetime * Chunk.t) (l : list (datetime * Chunk.t))
    : result (list (datetime * Chunk.t)) :=
  match l with
  | [] => mret [x]
  | y :: l' =>
      smaller ← dt_lt (fst x) (fst y);
      if smaller : bool then cons y <$> insert_desc x l' else mret (x :: y :: l')
  end.

Fixpoint sort_desc (l : list (datetime * Chunk.t)) : result (list (datetime * Chunk.t)) :=
  match l with
  | [] => mret []
  | x :: l' => sorted ← sort_desc l'; insert_desc x sorted
  end.

Section Resolver.
(** [datetime.fromisoformat]; [None] stands for its [ValueError]. *)
Variable fromisoformat : str -> option datetime.

(** The loop that collects [policies_with_dates]. *)
Fixpoint policies_with_dates (chunks : list Chunk.t) : M (list (datetime * Chunk.t)) :=
  match chunks with
  | chunk :: chunks' =>
      md ← read_dict (Chunk.metadata chunk);
      here ← match md !! "effective_date"%string with
             | Some effective_date_str =>
                 if nonempty effective_date_str then
                   match fromisoformat effective_date_str with
                   | Some effective_date =>
                       (* the trace line reads [chunk.metadata['filename']] *)
                       _ ← lift (dict_getitem md "filename");
                       mret [(effective_date, chunk)]
                   | None => mret []
                   end
                 else mret []
             | None => mret []
             end;
      later ← policies_with_dates chunks';
      mret (here ++ later)
  | [] => mret []
  end.

(** [resolve_policy_conflicts] *)
Definition resolve_policy_conflicts (chunks : list Chunk.t) : M Chunk.t :=
  dated ← policies_with_dates chunks;
  if nonempty dated then
    sorted ← lift (sort_desc dated);
    most_recent ← lift (list_getitem sorted 0);
    mret (snd most_recent)
  else lift (list_getitem chunks 0).

End Resolver.

(** ** Answer generation *)

(** [Sources:.*] *)
Definition re_sources : regex := RCat (rlit (chars "Sources:")) (rstar CAny).

Definition prompt_head : string :=
"You are an HR policy assistant.

Rules:
- Use ONLY the policy text below.
- Prefer the most recent policy.
- Ignore irrelevant documents.
- Answer clearly and concisely.
- Always cite the filename.
- DO NOT invent source names.
- The source filename will be provided programmatically.

Policy Text:
".

Definition prompt_question : string :=
"

Question:
".

Definition prompt_tail : string :=
"

Answer format:
<answer>
Sources: <filename>
".

Definition citation_prefix : str := newline :: chars "Sources: ".

(** The f-string of [generate_answer]. *)
Definition answer_prompt (policy_text query : str) : str :=
  chars prompt_head ++ policy_text ++ chars prompt_question ++ query ++ chars prompt_tail.

Section Answer.
(** [ChatOpenAI(...).invoke(prompt).content] *)
Variable llm : str -> str.

Definition llm_invoke (prompt : str) : M str :=
  _ ← emit (LLMInvoke prompt); mret (llm prompt).

(** [generate_answer] *)
Definition generate_answer (policy_chunk : Chunk.t) (query : str) : M str :=
  let prompt := answer_prompt (Chunk.text policy_chunk) query in
  raw ← llm_invoke prompt;
  let response := strip raw in
  let response := strip (re_sub_delete false re_sources response) in
  md ← read_dict (Chunk.metadata policy_chunk);
  filename ← lift (dict_getitem md "filename");
  mret (response ++ citation_prefix ++ filename).

End Answer.

(** ** Effective date of a document *)

Definition epoch_default : result datetime := datetime_new 1970 1 1.

Section FileSystem.
(** [os.path.exists] *)
Variable path_exists : str -> bool.
(** [datetime.fromtimestamp(os.path.getmtime(path))] for an existing path *)
Variable getmtime : str -> datetime.

(** [get_file_modification_date] *)
Definition get_file_modification_date (filepath : str) : datetime := getmtime filepath.

(** [extract_effective_date]; [filepath] is [None] when not supplied. *)
Definition extract_effective_date (text filename : str) (filepath : option str)
    : result datetime :=
  content_date ← extract_date_from_content text;
  match content_date with
  | Some d => mret d
  | None =>
      filename_date ← extract_date_from_filename filename;
      match filename_date with
      | Some d => mret d
      | None =>
          match filepath with
          | Some p =>
              if (nonempty p && path_exists p)%bool
              then mret (get_file_modification_date p)
              else epoch_default
          | None => epoch_default
          end
      end
  end.

End FileSystem.

(** ** Formatting numbers and dates *)

Definition digit_char (d : Z) : ascii := ascii_of_N (Z.to_N (48 + d)).

Fixpoint decimal_aux (fuel : nat) (n : Z) (acc : str) : str :=
  match fuel with
  | O => acc
  | S fuel' =>
      let acc' := digit_char (n mod 10) :: acc in
      if (n / 10 =? 0)%Z then acc' else decimal_aux fuel' (n / 10) acc'
  end.

(** [str(n)] for an integer *)
Definition py_str (n : Z) : str :=
  if (n <? 0)%Z
  then "-"%char :: decimal_aux (S (Z.to_nat (Z.log2 (- n)))) (- n) []
  else decimal_aux (S (Z.to_nat (Z.log2 n))) n [].

(** ["%0wd" % n] for a non-negative [n] *)
Definition zero_pad (w : nat) (n : Z) : str :=
  let s := py_str n in repeat "0"%char (w - length s) ++ s.

Definition format_offset (off : Z) : str :=
  let sign := if (off <? 0)%Z then "-"%char else "+"%char in
  let a := Z.abs off in
  let hh := (a / 3600000000)%Z in
  let r := (a mod 3600000000)%Z in
  let mm := (r / 60000000)%Z in
  let ss := (r mod 60000000)%Z in
  sign :: zero_pad 2 hh ++ chars ":" ++ zero_pad 2 mm
  ++ (if (ss =? 0)%Z then []
      else chars ":" ++ zero_pad 2 (ss / 1000000)
           ++ (if (ss mod 1000000 =? 0)%Z then []
               else chars "." ++ zero_pad 6 (ss mod 1000000))).

(** [d.isoformat()] *)
Definition isoformat (d : datetime) : str :=
  zero_pad 4 (year d) ++ chars "-" ++ zero_pad 2 (month d) ++ chars "-"
  ++ zero_pad 2 (day d) ++ chars "T"
  ++ zero_pad 2 (hour d) ++ chars ":" ++ zero_pad 2 (minute d) ++ chars ":"
  ++ zero_pad 2 (second d)
  ++ (if (microsecond d =? 0)%Z then [] else chars "." ++ zero_pad 6 (microsecond d))
  ++ match utcoffset d with
     | Some off => format_offset off
     | None => []
     end.

(** ** Ingestion, retrieval and the pipeline *)

Definition endswith (suffix s : str) : bool := startswith (rev suffix) (rev s).

(** [os.path.join(a, b)] (POSIX) *)
Definition path_join (a b : str) : str :=
  if startswith (chars "/") b then b
  else if nonempty a && negb (endswith (chars "/") a) then a ++ chars "/" ++ b
  else a ++ b.

Definition banner : str := repeat "="%char 80.

Definition msg_running : str := chars "RUNNING RAG PIPELINE".
Definition msg_loading : str := newline :: chars "→ Loading existing FAISS index...".
Definition msg_building : str := newline :: chars "→ Building FAISS index from scratch...".
Definition msg_no_policy : str := newline :: chars "⚠️  No relevant policy documents found.".
Definition msg_final : str := chars "FINAL ANSWER".

Section Pipeline.
Variable fromisoformat : str -> option datetime.
Variable llm : str -> str.
Variable path_exists : str -> bool.
Variable getmtime : str -> datetime.
(** [os.listdir] *)
Variable listdir : str -> list str.
(** [open(path).read()] *)
Variable read_file : str -> str.
(** The vector index: the type of [FAISS] stores, [FAISS.from_documents],
    [FAISS.load_local(FAISS_INDEX_DIR, ...)] and [similarity_search].
    A LangChain document is its page content and metadata. *)
Variable vstore : Type.
Variable from_documents : list (str * gmap string str) -> vstore.
Variable load_local : vstore.
Variable similarity_search : vstore -> str -> nat -> list (str * gmap string str).

(** The body of the loop of [load_documents]. *)
Fixpoint load_files (filenames : list str) : M (list Document.t) :=
  match filenames with
  | filename :: filenames' =>
      if negb (endswith (chars ".txt") filename) then load_files filenames'
      else
        let path := path_join KNOWLEDGE_BASE_DIR filename in
        let content := read_file path in
        effective_date ← lift (extract_effective_date path_exists getmtime
                                 content filename (Some path));
        md ← new_dict (list_to_map
               [("filename"%string, filename);
                ("doc_type"%string, classify_document filename);
                ("effective_date"%string, isoformat effective_date);
                ("effective_year"%string, py_str (year effective_date))]);
        later ← load_files filenames';
        mret (Document.Make content md :: later)
  | [] => mret []
  end.

(** [load_documents] *)
Definition load_documents : M (list Document.t) :=
  load_files (listdir KNOWLEDGE_BASE_DIR).

(** [to_langchain_documents] *)
Fixpoint to_langchain_documents (chunks : list Chunk.t) : M (list (str * gmap string str)) :=
  match chunks with
  | chunk :: chunks' =>
      md ← read_dict (Chunk.metadata chunk);
      later ← to_langchain_documents chunks';
      mret ((Chunk.text chunk, md) :: later)
  | [] => mret []
  end.

(** [build_vector_store] *)
Definition build_vector_store (chunks : list Chunk.t) : M vstore :=
  lc_docs ← to_langchain_documents chunks;
  let vector_store := from_documents lc_docs in
  _ ← emit IndexSaved;
  mret vector_store.

(** [load_vector_store] *)
Definition load_vector_store : M vstore := mret load_local.

(** The documents found by the index are new objects; each chunk shares
    the metadata dictionary of its document. *)
Fixpoint chunks_of_docs (docs : list (str * gmap string str)) : M (list Chunk.t) :=
  match docs with
  | doc :: docs' =>
      md ← new_dict (snd doc);
      later ← chunks_of_docs docs';
      mret (Chunk.Make (fst doc) md :: later)
  | [] => mret []
  end.

(** [retrieve_chunks] *)
Definition retrieve_chunks (vector_store : vstore) (query : str) (k : nat) : M (list Chunk.t) :=
  chunks_of_docs (similarity_search vector_store query k).

(** [run_pipeline]; it returns [None], here [tt]. *)
Definition run_pipeline (query : str) : M unit :=
  _ ← print (newline :: banner);
  _ ← print msg_running;
  _ ← print banner;
  vector_store ←
    (if path_exists FAISS_INDEX_DIR then
       _ ← print msg_loading;
       load_vector_store
     else
       _ ← print msg_building;
       documents ← load_documents;
       chunks ← chunk_documents documents;
       build_vector_store chunks);
  retrieved ← retrieve_chunks vector_store query TOP_K;
  filtered ← filter_noise retrieved;
  if negb (nonempty filtered) then
    print msg_no_policy
  else
    authoritative_policy ← resolve_policy_conflicts fromisoformat filtered;
    answer ← generate_answer llm authoritative_policy query;
    _ ← print (newline :: banner);
    _ ← print msg_final;
    _ ← print banner;
    _ ← print answer;
    print (banner ++ [newline]).

End Pipeline.

(** * Notions used in the statements *)

(** ** What a pattern matches, declaratively

    [sem ic r b w nxt c c'] reads: in a subject where [b] is the character
    before the current position and [nxt] the text after the matched
    part, pattern [r] can match the word [w], turning the captures [c]
    into [c']. The matcher only ever returns matches of this kind
    ([rmatch_sound] below). *)

Fixpoint after (b : option ascii) (w : str) : option ascii :=
  match w with
  | [] => b
  | c :: w' => after (Some c) w'
  end.

Fixpoint sem (ic : bool) (r : regex) (b : option ascii) (w nxt : str)
    (c c' : list (nat * str)) : Prop :=
  match r with
  | RChr x => ∃ y, w = [y] ∧ chr_match ic x y = true ∧ c' = c
  | RSet cs => ∃ y, w = [y] ∧ cset_mem ic cs y = true ∧ c' = c
  | RRep cs lo hi _ =>
      forallb (cset_mem ic cs) w = true ∧ lo ≤ length w
      ∧ (∀ n, hi = Some n → length w ≤ n) ∧ c' = c
  | RCat r1 r2 =>
      ∃ w1 w2 c1, w = w1 ++ w2 ∧ sem ic r1 b w1 (w2 ++ nxt) c c1
                  ∧ sem ic r2 (after b w1) w2 nxt c1 c'
  | RAlt r1 r2 => sem ic r1 b w nxt c c' ∨ sem ic r2 b w nxt c c'
  | RGrp n r1 => ∃ c1, sem ic r1 b w nxt c c1 ∧ c' = (n, w) :: c1
  | RWordB => w = [] ∧ xorb (is_word_at b) (is_word_at (head nxt)) = true ∧ c' = c
  | REmpty => w = [] ∧ c' = c
  end.

(** [binds n r]: every match of [r] sets group [n]. *)
Fixpoint binds (n : nat) (r : regex) : bool :=
  match r with
  | RGrp i r1 => (Nat.eqb i n || binds n r1)%bool
  | RCat r1 r2 => (binds n r1 || binds n r2)%bool
  | RAlt r1 r2 => (binds n r1 && binds n r2)%bool
  | _ => false
  end.

(** The date a document gets from the strategy chain, given what the two
    extractors found. *)
Definition chain_date (path_exists : str → bool) (getmtime : str → datetime)
    (content_date filename_date : option datetime) (filepath : option str) : datetime :=
  match content_date, filename_date, filepath with
  | Some d, _, _ => d
  | None, Some d, _ => d
  | None, None, Some p =>
      if (nonempty p && path_exists p)%bool then getmtime p
      else DateTime 1970 1 1 0 0 0 0 None
  | None, None, None => DateTime 1970 1 1 0 0 0 0 None
  end.

(** A string that does not start with white space. *)
Definition no_lead (s : str) : Prop :=
  match s with
  | c :: _ => is_space c = false
  | [] => True
  end.

(** [extends w w' ls]: [w'] is [w] with new dictionaries allocated at the
    distinct locations [ls]; the old ones are as they were, and nothing
    was written out. *)
Definition extends (w w' : world) (ls : list loc) : Prop :=
  trace w' = trace w ∧ heap w ⊆ heap w' ∧ NoDup ls
  ∧ (∀ l, l ∈ ls → l ∉ dom (heap w))
  ∧ (∀ l, l ∈ dom (heap w') ↔ l ∈ dom (heap w) ∨ l ∈ ls).


(** ** Reading the file-name and content strategies *)

(** The text starts with four digits. *)
Definition four_digits (s : str) : bool :=
  ((4 <=? length s) && forallb is_digit (take 4 s))%bool.

(** The leftmost four consecutive digits of a text. *)
Fixpoint first_four_digits (s : str) : option str :=
  if four_digits s then Some (take 4 s)
  else match s with
       | [] => None
       | _ :: s' => first_four_digits s'
       end.

(** [l] is a prefix of [s], up to case when [ic] is set. *)
Fixpoint prefix_match (ic : bool) (l s : str) : bool :=
  match l, s with
  | [], _ => true
  | c :: l', x :: s' => (chr_match ic c x && prefix_match ic l' s')%bool
  | _ :: _, [] => false
  end.

(** No match of [r] starts at any of the first [n] positions of [s], a
    text that stands after the character [b]. *)
Fixpoint no_match_before (ic : bool) (r : regex) (b : option ascii) (s : str)
    (n : nat) : bool :=
  match n with
  | 0 => true
  | S n' =>
      match match_here ic r b s with
      | Some _ => false
      | None =>
          match s with
          | c :: s' => no_match_before ic r (Some c) s' n'
          | [] => true
          end
      end
  end.

(** ** Reading the citation clean-up *)

(** What [re.sub(r"Sources:.*", "", s)] does, line by line: on every line
    the text from the first [Sources:] to the end of that line goes;
    [deleting] says that the current line is already being cut. *)
Fixpoint delete_citations (deleting : bool) (s : str) : str :=
  match s with
  | [] => []
  | c :: s' =>
      if ascii_eqb c newline then c :: delete_citations false s'
      else if (deleting || startswith (chars "Sources:") s)%bool
           then delete_citations true s'
           else c :: delete_citations false s'
  end.

(** The number of characters before the first line break. *)
Fixpoint line_length (s : str) : nat :=
  match s with
  | [] => 0
  | c :: s' => if ascii_eqb c newline then 0 else S (line_length s')
  end.

(** The characters [.] matches. *)
Definition not_newline (c : ascii) : bool := negb (ascii_eqb c newline).

Fixpoint drop_while (p : ascii → bool) (s : str) : str :=
  match s with
  | [] => []
  | c :: s' => if p c then drop_while p s' else s
  end.

(** The clean-up as the specification words it: everything from the first
    [Sources:] to the end of the text goes. *)
Fixpoint cut_at_first_sources (s : str) : str :=
  if startswith (chars "Sources:") s then []
  else match s with
       | [] => []
       | c :: s' => c :: cut_at_first_sources s'
       end.

(** The answer the specification's wording describes. *)
Definition answer_as_specified (raw filename : str) : str :=
  strip (cut_at_first_sources (strip raw)) ++ citation_prefix ++ filename.

(** ** A concrete [fromisoformat] for examples

    The strings every CPython since 3.7 parses alike: [YYYY-MM-DD],
    optionally followed by [THH:MM:SS] and then by [+HH:MM] or [-HH:MM].
    Later versions accept more of ISO 8601; the general statements below
    hold for any parser, and this one only serves closed examples, on
    strings of the shape above or on strings no version accepts. *)

Definition two_digits : regex := rexact CDigit 2.

Definition re_iso : regex :=
  rseq [RGrp 1 (rexact CDigit 4); RChr "-"; RGrp 2 two_digits; RChr "-"; RGrp 3 two_digits;
        RAlt (rseq [RChr "T"; RGrp 4 two_digits; RChr ":"; RGrp 5 two_digits;
                    RChr ":"; RGrp 6 two_digits;
                    RAlt (rseq [RGrp 7 (RSet (COneOf (chars "+-")));
                                RGrp 8 two_digits; RChr ":"; RGrp 9 two_digits])
                         REmpty])
             REmpty].

Definition field (c : list (nat * str)) (n : nat) : Z :=
  match assoc n c with
  | Some g => digits_val g
  | None => 0%Z
  end.

Definition fromisoformat_core (s : str) : option datetime :=
  match rmatch false re_iso (MState None s [])
          (λ st, if nonempty (rest st) then None else Some (caps st)) with
  | Some c =>
      match datetime_new (field c 1) (field c 2) (field c 3) with
      | Ok _ =>
          if ((field c 4 <=? 23) && (field c 5 <=? 59) && (field c 6 <=? 59)
              && (field c 8 <=? 23) && (field c 9 <=? 59))%Z%bool
          then Some (DateTime (field c 1) (field c 2) (field c 3)
                       (field c 4) (field c 5) (field c 6) 0
                       (match assoc 7 c with
                        | Some sign =>
                            let off := ((field c 8 * 3600 + field c 9 * 60) * 1000000)%Z in
                            Some (if str_eqb sign (chars "-") then (- off)%Z else off)
                        | None => None
                        end))
          else None
      | Raise _ => None
      end
  | None => None
  end.

(** ** Reading a chunk's metadata in a world *)

Definition metadata_of (w : world) (c : Chunk.t) : gmap string str :=
  default ∅ (heap w !! Chunk.metadata c).

(** The chunk's [doc_type] is ["policy"]. *)
Definition policy_chunk (w : world) (c : Chunk.t) : bool := is_policy (metadata_of w c).

(** ** Reading the conflict resolver *)

(** The date a chunk takes part in the ranking with, if any: its
    [effective_date] is present, not empty and parses. *)
Definition date_of (fromisoformat : str → option datetime) (w : world) (c : Chunk.t)
    : option datetime :=
  match metadata_of w c !! "effective_date"%string with
  | Some s => if nonempty s then fromisoformat s else None
  | None => None
  end.

(** An aware value carries a UTC offset, a naive one does not. *)
Definition aware (d : datetime) : bool :=
  match utcoffset d with
  | Some _ => true
  | None => false
  end.

(** The first of the newest entries of a list of dated entries. *)
Fixpoint newest (l : list (datetime * Chunk.t)) : option (datetime * Chunk.t) :=
  match l with
  | [] => None
  | x :: l' =>
      match newest l' with
      | Some y => if (dt_key (fst x) <? dt_key (fst y))%Z then Some y else Some x
      | None => Some x
      end
  end.

(** The dated entries of a list of chunks, in input order. *)
Definition dated_entries (fromisoformat : str → option datetime) (w : world)
    (chunks : list Chunk.t) : list (datetime * Chunk.t) :=
  omap (λ c, (λ d, (d, c)) <$> date_of fromisoformat w c) chunks.

(** ** Example data *)

Definition example_metadata : gmap string str :=
  list_to_map [("filename"%string, chars "leave_policy_2024.txt");
               ("doc_type"%string, chars "policy");
               ("effective_date"%string, chars "2024-01-01T00:00:00");
               ("effective_year"%string, chars "2024")].

Definition example_world : world := World {[ 0 := example_metadata ]} [].

(** One paragraph of 501 characters. *)
Definition oversize_document : Document.t :=
  Document.Make (repeat "a"%char 501) 0.

Definition policy_metadata (filename effective_date : string) : gmap string str :=
  list_to_map [("filename"%string, chars filename);
               ("doc_type"%string, chars "policy");
               ("effective_date"%string, chars effective_date)].

(** Three policy versions and a copy of the newest, as a retrieval might
    rank them. *)
Definition versions_world : world :=
  World (list_to_map
           [(0, policy_metadata "leave_policy_2022.txt" "2022-01-01T00:00:00");
            (1, policy_metadata "leave_policy_2024.txt" "2024-06-01T00:00:00");
            (2, policy_metadata "leave_policy_2023.txt" "2023-01-01T00:00:00");
            (3, policy_metadata "leave_policy_2024_copy.txt" "2024-06-01T00:00:00")]) [].

Definition versions : list Chunk.t :=
  [Chunk.Make (chars "Ten days of leave.") 0;
   Chunk.Make (chars "Fifteen days of leave.") 1;
   Chunk.Make (chars "Twelve days of leave.") 2;
   Chunk.Make (chars "Fifteen days of leave (copy).") 3].

(** One date stored with a UTC offset, one without. *)
Definition mixed_world : world :=
  World (list_to_map
           [(0, policy_metadata "leave_policy_2023.txt" "2023-01-01T00:00:00+00:00");
            (1, policy_metadata "leave_policy_2024.txt" "2024-06-01T00:00:00")]) [].

Definition mixed_versions : list Chunk.t :=
  [Chunk.Make (chars "Twelve days of leave.") 0;
   Chunk.Make (chars "Fifteen days of leave.") 1].

(** A dated chunk whose metadata has no [filename]. *)
Definition nameless_world : world :=
  World {[ 0 := {[ "effective_date"%string := chars "2024-06-01T00:00:00" ]} ]} [].

Definition nameless_versions : list Chunk.t := [Chunk.Make (chars "Fifteen days of leave.") 0].

(** An environment where the index exists and finds one document, a
    lunch menu that is not a policy. *)
Definition menu_metadata : gmap string str :=
  list_to_map [("filename"%string, chars "lunch_menu.txt");
               ("doc_type"%string, chars "noise");
               ("effective_date"%string, chars "2024-03-01T00:00:00")].

Definition menu_search (_ : unit) (_ : str) (_ : nat) : list (str * gmap string str) :=
  [(chars "Today: soup.", menu_metadata)].

(** A model response with a line after its own citation. *)
Definition response_with_note : string :=
"Employees get 15 days of leave.
Sources: old_policy.txt
Note: ask HR for details.".

Definition answer_with_note : string :=
"Employees get 15 days of leave.

Note: ask HR for details.
Sources: leave_policy_2024.txt".

(** ** Notions for the outcome of the resolver *)

(** A chunk that takes part in the ranking but has no [filename]. *)
Definition nameless_dated (fromisoformat : str → option datetime) (w : world)
    (c : Chunk.t) : bool :=
  match date_of fromisoformat w c, metadata_of w c !! "filename"%string with
  | Some _, None => true
  | _, _ => false
  end.

(** All entries are naive or all are aware. *)
Definition same_awareness (l : list (datetime * Chunk.t)) : bool :=
  match l with
  | [] => true
  | x :: l' => forallb (λ y, Bool.eqb (aware (fst x)) (aware (fst y))) l'
  end.

(** ** Notions for the texts of chunks *)

(** Texts joined by single spaces. *)
Fixpoint join_sp (l : list str) : str :=
  match l with
  | [] => []
  | [p] => p
  | p :: l' => p ++ chars " " ++ join_sp l'
  end.

(** The text has a character that is not white space. *)
Definition has_ink (s : str) : bool := existsb (λ c, negb (is_space c)) s.

(** A text that is not empty and neither starts nor ends with white space. *)
Definition clean (s : str) : Prop := s ≠ [] ∧ no_lead s ∧ no_lead (rev s).

(** All paragraphs of a list of documents, in order. *)
Definition all_paragraphs (docs : list Document.t) : list str :=
  concat (map (λ doc, paragraphs (Document.content doc)) docs).

(** What the buffer of [chunk_documents] holds after the paragraphs [bs]:
    their join, with a space in front when the first of them was appended
    to the empty buffer. *)
Definition buffer_of (bs : list str) (buffer : str) : Prop :=
  match bs with
  | [] => buffer = []
  | _ => buffer = join_sp bs ∨ buffer = " "%char :: join_sp bs
  end.

(** The first paragraph of the document is longer than the threshold. *)
Definition oversize_start (doc : Document.t) : bool :=
  match paragraphs (Document.content doc) with
  | p :: _ => (CHUNK_SIZE <? length p)%nat
  | [] => false
  end.

(** The chunk has no text. *)
Definition blank (c : Chunk.t) : bool := negb (nonempty (Chunk.text c)).

(** ** Notions for the dates found *)

(** Every match of the expression contains four consecutive digits. *)
Fixpoint needs_four_digits (r : regex) : bool :=
  match r with
  | RRep CDigit lo _ _ => (4 <=? lo)%nat
  | RCat r1 r2 => (needs_four_digits r1 || needs_four_digits r2)%bool
  | RAlt r1 r2 => (needs_four_digits r1 && needs_four_digits r2)%bool
  | RGrp _ r1 => needs_four_digits r1
  | _ => false
  end.

(** A day of the calendar, at midnight, without time zone. *)
Definition calendar_date (d : datetime) : Prop :=
  (1 ≤ year d ≤ 9999)%Z ∧ (1 ≤ month d ≤ 12)%Z
  ∧ (1 ≤ day d ≤ days_in_month (year d) (month d))%Z
  ∧ hour d = 0%Z ∧ minute d = 0%Z ∧ second d = 0%Z ∧ microsecond d = 0%Z
  ∧ utcoffset d = None.

(** ** Notions for ingestion *)

(** The metadata [load_documents] gives the file [filename] dated [d]. *)
Definition document_metadata (filename : str) (d : datetime) : gmap string str :=
  list_to_map
    [("filename"%string, filename);
     ("doc_type"%string, classify_document filename);
     ("effective_date"%string, isoformat d);
     ("effective_year"%string, py_str (year d))].

(** The text files of a directory listing, in its order. *)
Definition text_files (listing : list str) : list str :=
  List.filter (endswith (chars ".txt")) listing.

(** [doc] is the document of the file [filename], as the world [w] has it. *)
Definition document_of (path_exists : str → bool) (getmtime : str → datetime)
    (read_file : str → str) (w : world) (filename : str) (doc : Document.t) : Prop :=
  let path := path_join KNOWLEDGE_BASE_DIR filename in
  Document.content doc = read_file path
  ∧ ∃ d, extract_effective_date path_exists getmtime (read_file path) filename (Some path)
         = Ok d
       ∧ heap w !! Document.metadata doc = Some (document_metadata filename d).

(** ** Notions for a run that answers *)




(** * Properties *)

(** ** The error monad *)

Lemma result_bind_Ok {A B} (a : A) (f : A → result B) : Ok a ≫= f = f a.
Proof. reflexivity. Qed.

(** ** Strings *)

Lemma ascii_eqb_eq a b : ascii_eqb a b = true ↔ a = b.
Proof.
  unfold ascii_eqb, code. rewrite N.eqb_eq. split; [|congruence].
  intros H. rewrite <- (ascii_N_embedding a), <- (ascii_N_embedding b). congruence.
Qed.

Lemma str_eqb_eq a b : str_eqb a b = true ↔ a = b.
Proof.
  revert b; induction a as [|x a IH]; intros [|y b]; simpl; try (split; congruence).
  rewrite andb_true_iff, ascii_eqb_eq, IH. split; [intros [-> ->] | intros [= -> ->]]; done.
Qed.

Lemma after_app b w1 w2 : after b (w1 ++ w2) = after (after b w1) w2.
Proof. revert b; induction w1 as [|c w1 IH]; intros b; simpl; [done | apply IH]. Qed.

Lemma consumed_app (w s : str) : consumed (w ++ s) s = w.
Proof.
  unfold consumed. rewrite length_app.
  replace (length w + length s - length s) with (length w) by lia.
  by rewrite take_app_length.
Qed.

(** ** Soundness of the matcher *)

Lemma rep_sound {R} p g lo hi b s (k : option ascii → str → option R) res :
  rep p g lo hi b s k = Some res →
  ∃ w s', s = w ++ s' ∧ forallb p w = true ∧ lo ≤ length w
          ∧ (∀ n, hi = Some n → length w ≤ n) ∧ k (after b w) s' = Some res.
Proof.
  revert lo hi b. induction s as [|c s IH]; intros lo hi b H.
  - assert (lo = 0 ∧ k b [] = Some res) as [-> Hk].
    { simpl in H. destruct g, lo; simpl in H; try discriminate; auto.
      destruct (k b []); [auto | discriminate]. }
    exists [], []. repeat split; simpl; auto. intros; lia.
  - assert ((lo = 0 ∧ k b (c :: s) = Some res)
            ∨ (p c = true ∧ can_take hi = true
               ∧ rep p g (pred lo) (one_less hi) (Some c) s k = Some res)) as Hcases.
    { simpl in H.
      destruct (p c) eqn:Hp, (can_take hi) eqn:Hh; simpl in H;
        destruct g, lo; simpl in H; try discriminate; auto;
        repeat match type of H with
               | match ?x with _ => _ end = _ => destruct x eqn:?
               end; try discriminate; simplify_eq/=; auto. }
    destruct Hcases as [[-> Hk] | (Hp & Hh & Hr)].
    + exists [], (c :: s). repeat split; simpl; auto. intros; lia.
    + apply IH in Hr as (w & s' & -> & Hw & Hlo & Hhi & Hk).
      exists (c :: w), s'. repeat split; simpl; auto.
      * by rewrite Hp, Hw.
      * lia.
      * intros n ->. destruct n as [|n]; [discriminate|].
        specialize (Hhi n eq_refl). lia.
Qed.

Lemma rmatch_sound {R} ic r st (k : mstate → option R) res :
  rmatch ic r st k = Some res →
  ∃ w s' c', rest st = w ++ s' ∧ sem ic r (before st) w s' (caps st) c'
             ∧ k (MState (after (before st) w) s' c') = Some res.
Proof.
  revert st k. induction r as [x|cs|cs lo hi g|r1 IH1 r2 IH2|r1 IH1 r2 IH2|n r1 IH1| |];
    intros st k H; simpl in H.
  - destruct (rest st) as [|y s'] eqn:Hs; [discriminate|].
    destruct (chr_match ic x y) eqn:Hm; [|discriminate].
    exists [y], s', (caps st). repeat split; simpl; eauto.
  - destruct (rest st) as [|y s'] eqn:Hs; [discriminate|].
    destruct (cset_mem ic cs y) eqn:Hm; [|discriminate].
    exists [y], s', (caps st). repeat split; simpl; eauto.
  - apply rep_sound in H as (w & s' & Hs & Hw & Hlo & Hhi & Hk).
    exists w, s', (caps st). repeat split; simpl; auto.
  - apply IH1 in H as (w1 & s1 & c1 & Hs1 & Hsem1 & H). simpl in H.
    apply IH2 in H as (w2 & s2 & c2 & Hs2 & Hsem2 & H). simpl in *.
    exists (w1 ++ w2), s2, c2. subst s1. repeat split.
    + by rewrite Hs1, app_assoc.
    + simpl. exists w1, w2, c1. auto.
    + by rewrite after_app.
  - destruct (rmatch ic r1 st k) eqn:H1.
    + injection H as ->. apply IH1 in H1 as (w & s' & c' & ? & ? & ?).
      exists w, s', c'. simpl. auto.
    + apply IH2 in H as (w & s' & c' & ? & ? & ?).
      exists w, s', c'. simpl. auto.
  - apply IH1 in H as (w & s' & c' & Hs & Hsem & H). simpl in H.
    rewrite Hs, consumed_app in H.
    exists w, s', ((n, w) :: c'). repeat split; simpl; eauto.
  - destruct (xorb _ _) eqn:Hx; [|discriminate].
    exists [], (rest st), (caps st). destruct st; simpl in *. auto.
  - exists [], (rest st), (caps st). destruct st; simpl in *. auto.
Qed.

Lemma search_from_sound ic r b s pos m :
  search_from ic r b s pos = Some m →
  ∃ b' pre w s', s = pre ++ w ++ s' ∧ sem ic r b' w s' [] (caps (m_end m)).
Proof.
  revert b pos. induction s as [|c s IH]; intros b pos H; simpl in H.
  - destruct (match_here ic r b []) as [st|] eqn:Hm; [|discriminate].
    injection H as <-. apply rmatch_sound in Hm as (w & s' & c' & Hs & Hsem & [= <-]).
    simpl in *. exists b, [], w, s'. auto.
  - destruct (match_here ic r b (c :: s)) as [st|] eqn:Hm.
    + injection H as <-. apply rmatch_sound in Hm as (w & s' & c' & Hs & Hsem & [= <-]).
      simpl in *. exists b, [], w, s'. auto.
    + apply IH in H as (b' & pre & w & s' & -> & Hsem).
      exists b', (c :: pre), w, s'. auto.
Qed.

Lemma re_search_sound ic r s m :
  re_search ic r s = Some m →
  ∃ b' pre w s', s = pre ++ w ++ s' ∧ sem ic r b' w s' [] (caps (m_end m)).
Proof. apply search_from_sound. Qed.

Lemma sem_binds ic n r b w nxt c c' :
  sem ic r b w nxt c c' →
  (binds n r = true → is_Some (assoc n c')) ∧ (is_Some (assoc n c) → is_Some (assoc n c')).
Proof.
  revert b w nxt c c'.
  induction r as [x|cs|cs lo hi g|r1 IH1 r2 IH2|r1 IH1 r2 IH2|i r1 IH1| |];
    intros b w nxt c c' H; simpl in *.
  - destruct H as (y & _ & _ & ->). split; [done | auto].
  - destruct H as (y & _ & _ & ->). split; [done | auto].
  - destruct H as (_ & _ & _ & ->). split; [done | auto].
  - destruct H as (w1 & w2 & c1 & _ & H1 & H2).
    apply IH1 in H1 as [H1a H1b]. apply IH2 in H2 as [H2a H2b].
    split; [|auto]. intros [?|?]%orb_true_iff; auto.
  - destruct H as [H|H]; [apply IH1 in H as [Ha Hb] | apply IH2 in H as [Ha Hb]];
      (split; [|auto]); intros [? ?]%andb_true_iff; auto.
  - destruct H as (c1 & H & ->). apply IH1 in H as [Ha Hb]. simpl.
    destruct (Nat.eqb i n); simpl; [split; eauto | auto].
  - destruct H as (_ & _ & ->). split; [done | auto].
  - destruct H as (_ & ->). split; [done | auto].
Qed.

(** A group that the pattern always sets is never [None] on a match. *)
Lemma search_binds ic r s m n :
  re_search ic r s = Some m → binds n r = true → ∃ g, group m n = Some g.
Proof.
  intros (b' & pre & w & s' & _ & Hsem)%re_search_sound Hb.
  by apply (sem_binds ic n) in Hsem as [[g Hg]%(fun H => H Hb) _]; eauto.
Qed.

(** ** Numbers and dates *)

Lemma digit_val_range c : is_digit c = true → (0 ≤ digit_val c ≤ 9)%Z.
Proof.
  unfold is_digit, in_range, digit_val.
  intros [?%N.leb_le ?%N.leb_le]%andb_true_iff. lia.
Qed.

Lemma py_int_digits g :
  forallb is_digit g = true → g ≠ [] → py_int g = Ok (digits_val g).
Proof. intros Hd Hne. destruct g; [done|]. unfold py_int. by rewrite Hd. Qed.

Lemma month_map_range k mo : month_map !! k = Some mo → (1 ≤ mo ≤ 12)%Z.
Proof.
  assert (map_Forall (λ _ v, (1 ≤ v ≤ 12)%Z) month_map) as H.
  { unfold month_map. simpl.
    repeat (apply map_Forall_insert_2; [lia|]). apply map_Forall_empty. }
  apply H.
Qed.

Lemma days_in_month_pos y m : (28 ≤ days_in_month y m)%Z.
Proof. unfold days_in_month. repeat case_match; lia. Qed.

Lemma datetime_new_first y m :
  (1 ≤ y ≤ 9999)%Z → (1 ≤ m ≤ 12)%Z →
  datetime_new y m 1 = Ok (DateTime y m 1 0 0 0 0 None).
Proof.
  intros Hy Hm. unfold datetime_new. pose proof (days_in_month_pos y m).
  rewrite !andb_true_intro; [done|]. repeat split; try apply Z.leb_le; lia.
Qed.

(** The date constructor raises nothing but [ValueError]. *)
Lemma datetime_new_cases y m d :
  (∃ dt, datetime_new y m d = Ok dt) ∨ datetime_new y m d = Raise ValueError.
Proof. unfold datetime_new. case_match; eauto. Qed.

(** [strptime] raises nothing but [ValueError]. *)
Lemma strptime_cases data fmt :
  (∃ dt, strptime data fmt = Ok dt) ∨ strptime data fmt = Raise ValueError.
Proof.
  unfold strptime. repeat case_match; auto using datetime_new_cases.
Qed.

Lemma try_strptime_total data fmt : ∃ o, try_strptime data fmt = Ok o.
Proof.
  unfold try_strptime.
  destruct (strptime_cases data fmt) as [[dt ->] | ->]; simpl; eauto.
Qed.

Lemma first_format_total data fmts : ∃ o, first_format data fmts = Ok o.
Proof.
  induction fmts as [|fmt fmts [o IH]]; simpl; [by eexists|].
  destruct (try_strptime_total data fmt) as [[d|] ->]; simpl; eauto.
Qed.

(** ** What the module's patterns capture *)

Ltac break_sem :=
  repeat match goal with
         | H : ∃ _, _ |- _ => destruct H
         | H : _ ∧ _ |- _ => destruct H
         end.

Lemma re_year_group s m :
  re_search false re_year s = Some m →
  ∃ g, group m 1 = Some g ∧ forallb is_digit g = true ∧ length g = 4.
Proof.
  intros (b' & pre & w & s' & _ & Hsem)%re_search_sound.
  cbn in Hsem. break_sem. subst. exists w. unfold group.
  match goal with H : caps _ = _ |- _ => rewrite H end.
  repeat split; auto. 
  match goal with H : ∀ n, Some 4 = Some n → _ |- _ => specialize (H 4 eq_refl) end. lia.
Qed.

Lemma re_full_date_groups s m :
  re_search false re_full_date s = Some m →
  ∃ g1 g2 g3, group m 1 = Some g1 ∧ group m 2 = Some g2 ∧ group m 3 = Some g3
    ∧ (forallb is_digit g1 = true ∧ g1 ≠ [])
    ∧ (forallb is_digit g2 = true ∧ g2 ≠ [])
    ∧ (forallb is_digit g3 = true ∧ g3 ≠ []).
Proof.
  intros (b' & pre & w & s' & _ & Hsem)%re_search_sound.
  cbn in Hsem. break_sem. subst. unfold group.
  match goal with H : caps _ = _ |- _ => rewrite H end. simpl.
  eexists _, _, _. repeat split; eauto; intros ->; simpl in *; lia.
Qed.

Lemma re_month_year_groups s m :
  re_search false re_month_year s = Some m →
  ∃ g1 g2, group m 1 = Some g1 ∧ group m 2 = Some g2
    ∧ forallb is_digit g2 = true ∧ g2 ≠ [].
Proof.
  intros (b' & pre & w & s' & _ & Hsem)%re_search_sound.
  cbn in Hsem. break_sem. subst. unfold group.
  match goal with H : caps _ = _ |- _ => rewrite H end. simpl.
  eexists _, _. repeat split; eauto; intros ->; simpl in *; lia.
Qed.

Lemma re_year20_group s m :
  re_search false re_year20 s = Some m →
  ∃ d1 d2, group m 1 = Some ["2"; "0"; d1; d2]%char
    ∧ is_digit d1 = true ∧ is_digit d2 = true.
Proof.
  intros (b' & pre & w & s' & _ & Hsem)%re_search_sound.
  cbn in Hsem. break_sem. subst. unfold group.
  match goal with H : caps _ = _ |- _ => rewrite H end. simpl.
  repeat match goal with H : ascii_eqb _ _ = true |- _ => apply ascii_eqb_eq in H; subst end.
  match goal with H : ∀ n, Some 2 = Some n → _ |- _ => specialize (H 2 eq_refl) end.
  match goal with H : forallb _ ?w = true |- _ => 
    destruct w as [|d1 [|d2 [|]]]; simpl in *; try lia;
    apply andb_true_iff in H as [? [? _]%andb_true_iff] end.
  eauto.
Qed.

(** ** The extraction strategies never raise *)

Lemma in_2000_2099_spec y : in_2000_2099 y = true ↔ (2000 ≤ y ≤ 2099)%Z.
Proof. unfold in_2000_2099. rewrite andb_true_iff, !Z.leb_le. done. Qed.

Lemma filename_year_total filename : ∃ o, filename_year filename = Ok o.
Proof.
  unfold filename_year.
  destruct (re_search false re_year filename) as [m|] eqn:Hs; [|by eexists].
  apply re_year_group in Hs as (g & Hg & Hd & Hlen).
  unfold int_group. rewrite Hg, py_int_digits by (auto; by intros ->). simpl.
  destruct (in_2000_2099 _) eqn:Hy; [|by eexists].
  apply in_2000_2099_spec in Hy.
  rewrite datetime_new_first by lia. by eexists.
Qed.

Lemma filename_full_date_total filename : ∃ o, filename_full_date filename = Ok o.
Proof.
  unfold filename_full_date.
  destruct (re_search false re_full_date filename) as [m|] eqn:Hs; [|by eexists].
  apply re_full_date_groups in Hs
    as (g1 & g2 & g3 & H1 & H2 & H3 & [? ?] & [? ?] & [? ?]).
  unfold int_group. rewrite H1, H2, H3, !py_int_digits by auto. simpl.
  destruct (datetime_new_cases (digits_val g1) (digits_val g2) (digits_val g3))
    as [[dt ->] | ->]; simpl; by eexists.
Qed.

Lemma filename_month_year_total filename : ∃ o, filename_month_year filename = Ok o.
Proof.
  unfold filename_month_year.
  destruct (re_search false re_month_year (lower filename)) as [m|] eqn:Hs; [|by eexists].
  apply re_month_year_groups in Hs as (g1 & g2 & H1 & H2 & ? & ?).
  unfold str_group, int_group. rewrite H1, H2, py_int_digits by auto. simpl.
  destruct (month_map !! _) as [mo|] eqn:Hmo; [|by eexists].
  apply month_map_range in Hmo.
  destruct (in_2000_2099 _) eqn:Hy; [|by eexists].
  apply in_2000_2099_spec in Hy.
  rewrite datetime_new_first by lia. by eexists.
Qed.

Lemma or_else_total {A} (first next : result (option A)) :
  (∃ o, first = Ok o) → (∃ o, next = Ok o) → ∃ o, or_else first next = Ok o.
Proof. intros [[a|] ->] [o ->]; simpl; by eexists. Qed.

(** [extract_date_from_filename] returns, for every file name. *)
Lemma extract_date_from_filename_total filename :
  ∃ o, extract_date_from_filename filename = Ok o.
Proof.
  unfold extract_date_from_filename.
  repeat apply or_else_total;
    [apply filename_year_total | apply filename_full_date_total
     | apply filename_month_year_total].
Qed.

Lemma content_effective_total text : ∃ o, content_effective text = Ok o.
Proof.
  unfold content_effective.
  destruct (re_search true re_effective text) as [m|] eqn:Hs; [|by eexists].
  apply (search_binds _ _ _ _ 1) in Hs as [g Hg]; [|done].
  unfold str_group. rewrite Hg. simpl. apply try_strptime_total.
Qed.

Lemma content_effective_paren_total text : ∃ o, content_effective_paren text = Ok o.
Proof.
  unfold content_effective_paren.
  destruct (re_search true re_effective_paren text) as [m|] eqn:Hs; [|by eexists].
  apply (search_binds _ _ _ _ 1) in Hs as [g Hg]; [|done].
  unfold str_group. rewrite Hg. simpl. apply try_strptime_total.
Qed.

Lemma content_updated_total text : ∃ o, content_updated text = Ok o.
Proof.
  unfold content_updated.
  destruct (re_search true re_updated text) as [m|] eqn:Hs; [|by eexists].
  apply (search_binds _ _ _ _ 1) in Hs as [g Hg]; [|done].
  unfold str_group. rewrite Hg. simpl.
  destruct (strptime_cases g "%B %Y") as [[dt ->] | ->]; simpl; [by eexists|].
  apply try_strptime_total.
Qed.

Lemma content_as_of_total text : ∃ o, content_as_of text = Ok o.
Proof.
  unfold content_as_of.
  destruct (re_search true re_as_of text) as [m|] eqn:Hs; [|by eexists].
  apply (search_binds _ _ _ _ 1) in Hs as [g Hg]; [|done].
  unfold str_group. rewrite Hg, result_bind_Ok. apply first_format_total.
Qed.

Lemma digits_val_20 d1 d2 :
  is_digit d1 = true → is_digit d2 = true →
  (2000 ≤ digits_val ["2"; "0"; d1; d2]%char ≤ 2099)%Z.
Proof.
  intros H1%digit_val_range H2%digit_val_range.
  unfold digits_val. simpl. change (digit_val "2") with 2%Z.
  change (digit_val "0") with 0%Z. lia.
Qed.

Lemma content_year_total text : ∃ o, content_year text = Ok o.
Proof.
  unfold content_year.
  destruct (re_search false re_year20 (take 200 text)) as [m|] eqn:Hs; [|by eexists].
  apply re_year20_group in Hs as (d1 & d2 & Hg & Hd1 & Hd2).
  pose proof (digits_val_20 d1 d2 Hd1 Hd2) as Hy.
  unfold int_group. rewrite Hg, py_int_digits; [|by simpl; rewrite Hd1, Hd2|done].
  simpl. rewrite datetime_new_first by lia. by eexists.
Qed.

(** [extract_date_from_content] returns, for every text. *)
Lemma extract_date_from_content_total text :
  ∃ o, extract_date_from_content text = Ok o.
Proof.
  unfold extract_date_from_content.
  repeat apply or_else_total;
    [apply content_effective_total | apply content_effective_paren_total
     | apply content_updated_total | apply content_as_of_total
     | apply content_year_total].
Qed.

(** C2. For every text, file name and optional path, [extract_effective_date]
    returns a date and raises nothing: both extractors return, and the date
    is the content date if there is one, else the file-name date if there is
    one, else the modification time when a path is supplied and exists, else
    1 January 1970. *)
Theorem extract_effective_date_never_fails
    (path_exists : str → bool) (getmtime : str → datetime)
    (text filename : str) (filepath : option str) :
  ∃ content_date filename_date,
    extract_date_from_content text = Ok content_date
    ∧ extract_date_from_filename filename = Ok filename_date
    ∧ extract_effective_date path_exists getmtime text filename filepath
      = Ok (chain_date path_exists getmtime content_date filename_date filepath).
Proof.
  destruct (extract_date_from_content_total text) as [c Hc].
  destruct (extract_date_from_filename_total filename) as [f Hf].
  exists c, f. split; [done|]. split; [done|].
  unfold extract_effective_date, chain_date. rewrite Hc. simpl.
  destruct c as [d|]; [done|]. rewrite Hf. simpl.
  destruct f as [d|]; [done|].
  destruct filepath as [p|]; [destruct (nonempty p && path_exists p)%bool|]; done.
Qed.

(** ** Pattern 4 of the content extractor and day-less dates *)

(** C6 (evaluation at the failing input). On [Valid from: March 2024] the
    pattern of strategy 4 finds no match, because the lazy [\d{1,2}?] still
    needs one digit for the day: strategy 4 yields nothing, and the text is
    dated 1 January 2024 by the bare-year strategy 5 instead of 1 March 2024. *)
Example valid_from_without_day :
  re_search true re_as_of (chars "Valid from: March 2024") = None
  ∧ content_as_of (chars "Valid from: March 2024") = Ok None
  ∧ strptime (chars "March 2024") "%B %Y" = Ok (DateTime 2024 3 1 0 0 0 0 None)
  ∧ extract_date_from_content (chars "Valid from: March 2024")
    = Ok (Some (DateTime 2024 1 1 0 0 0 0 None)).
Proof. repeat split; vm_compute; reflexivity. Qed.

(** With a day the same label is dated by strategy 4. *)
Example valid_from_with_day :
  extract_date_from_content (chars "Valid from: March 5, 2024")
  = Ok (Some (DateTime 2024 3 5 0 0 0 0 None)).
Proof. vm_compute; reflexivity. Qed.

(** Every match of the pattern of strategy 4 has a day: one or two digits
    between the month name and the year. *)
Lemma re_as_of_needs_day text m :
  re_search true re_as_of text = Some m →
  ∃ name sp1 dd comma sp2 yyyy,
    group m 1 = Some (name ++ sp1 ++ dd ++ comma ++ sp2 ++ yyyy)
    ∧ forallb is_alpha name = true
    ∧ forallb is_space sp1 = true
    ∧ forallb is_digit dd = true ∧ 1 ≤ length dd ≤ 2
    ∧ forallb is_space sp2 = true ∧ 1 ≤ length sp2
    ∧ forallb is_digit yyyy = true ∧ length yyyy = 4.
Proof.
  intros (b' & pre & w & s' & _ & Hsem)%re_search_sound.
  unfold re_as_of in Hsem. 
  cbn [rseq sem] in Hsem. 
  destruct Hsem as (w1 & w2 & c1 & _ & _ & Hsem).
  destruct Hsem as (w3 & w4 & c2 & _ & _ & Hsem).
  destruct Hsem as (w5 & w6 & c3 & _ & _ & Hsem).
  cbn in Hsem. break_sem. subst. unfold group.
  match goal with H : caps _ = _ |- _ => rewrite H end. simpl.
  eexists _, _, _, _, _, _. split; [reflexivity|].
  repeat match goal with H : ∀ n, Some ?k = Some n → _ |- _ => specialize (H k eq_refl) end.
  repeat split; auto; lia.
Qed.

(** ** Stripping *)

Lemma lstrip_split s : ∃ sp, s = sp ++ lstrip s ∧ forallb is_space sp = true.
Proof.
  induction s as [|c s (sp & Hs & Hsp)]; [by exists []|]. simpl.
  destruct (is_space c) eqn:Hc; [|by exists []].
  exists (c :: sp). simpl. rewrite Hc, Hsp, <- Hs. done.
Qed.

Lemma lstrip_no_lead s : no_lead (lstrip s).
Proof.
  induction s as [|c s IH]; simpl; [done|].
  destruct (is_space c) eqn:Hc; [done|]. simpl. done.
Qed.

Lemma lstrip_id s : no_lead s → lstrip s = s.
Proof. destruct s as [|c s]; simpl; [done|]. by intros ->. Qed.

Lemma strip_idempotent s : strip (strip s) = strip s.
Proof.
  unfold strip, rstrip.
  pose proof (lstrip_no_lead s) as Ht. set (t := lstrip s) in *.
  destruct (lstrip_split (rev t)) as (sp & Hsp & _).
  pose proof (lstrip_no_lead (rev t)) as Hv. set (v := lstrip (rev t)) in *.
  assert (t = rev v ++ rev sp) as Htv.
  { rewrite <- rev_app_distr, <- Hsp. by rewrite rev_involutive. }
  assert (lstrip (rev v) = rev v) as ->.
  { apply lstrip_id. destruct (rev v) as [|c r]; [done|].
    rewrite Htv in Ht. done. }
  by rewrite rev_involutive, (lstrip_id v).
Qed.

Lemma paragraphs_stripped content p : p ∈ paragraphs content → strip p = p.
Proof.
  unfold paragraphs. intros (q & -> & _)%list_elem_of_fmap.
  apply strip_idempotent.
Qed.

(** ** The state monad and the heap *)

Lemma M_bind_Ok {A B} (m : M A) (f : A → M B) w a w' :
  m w = (Ok a, w') → (m ≫= f) w = f a w'.
Proof. intros H. unfold mbind, M_bind. by rewrite H. Qed.

Lemma extends_refl w : extends w w [].
Proof.
  split; [done|]. split; [done|]. split; [apply NoDup_nil_2|].
  split; [intros l Hl; by apply elem_of_nil in Hl|].
  intros l. rewrite elem_of_nil. tauto.
Qed.

Lemma extends_trans w w1 w2 l1 l2 :
  extends w w1 l1 → extends w1 w2 l2 → extends w w2 (l1 ++ l2).
Proof.
  intros (Ht1 & Hs1 & Hn1 & Hf1 & Hd1) (Ht2 & Hs2 & Hn2 & Hf2 & Hd2).
  split; [congruence|]. split; [by trans (heap w1)|]. split; [|split].
  - apply NoDup_app. repeat split; auto.
    intros l Hl1 Hl2. apply (Hf2 l Hl2), Hd1. auto.
  - intros l [Hl|Hl]%elem_of_app; [by apply Hf1|].
    intros Hin. apply (Hf2 l Hl), Hd1. auto.
  - intros l. rewrite elem_of_app, Hd2, Hd1. tauto.
Qed.

Lemma extends_lookup w w' ls l d :
  extends w w' ls → heap w !! l = Some d → heap w' !! l = Some d.
Proof. intros (_ & Hs & _) Hl. by eapply lookup_weaken. Qed.

Lemma extends_lookup_old w w' ls l :
  extends w w' ls → l ∈ dom (heap w) → heap w' !! l = heap w !! l.
Proof.
  intros Hext [d Hd]%elem_of_dom. rewrite Hd. by eapply extends_lookup.
Qed.

Lemma new_dict_extends d w :
  ∃ l w', new_dict d w = (Ok l, w') ∧ extends w w' [l] ∧ heap w' !! l = Some d.
Proof.
  eexists _, _. split; [reflexivity|]. simpl.
  pose proof (is_fresh (dom (heap w))) as Hfresh.
  split; [|by rewrite lookup_insert_eq].
  split; [done|]. split; [|split; [|split]]; simpl.
  - apply insert_subseteq. by apply not_elem_of_dom.
  - apply NoDup_singleton.
  - by intros l ->%list_elem_of_singleton.
  - intros l. rewrite dom_insert, elem_of_union, elem_of_singleton, list_elem_of_singleton. tauto.
Qed.

Lemma dict_copy_extends md w :
  ∃ l w', dict_copy md w = (Ok l, w') ∧ extends w w' [l]
          ∧ heap w' !! l = Some (default ∅ (heap w !! md)).
Proof. apply new_dict_extends. Qed.

(** ** Chunking *)

Lemma chunk_paragraphs_spec md paras buffer w :
  ∃ cs w', chunk_paragraphs md paras buffer w = (Ok cs, w')
    ∧ extends w w' (map Chunk.metadata cs)
    ∧ ∀ c, c ∈ cs → heap w' !! Chunk.metadata c = Some (default ∅ (heap w !! md)).
Proof.
  revert buffer w. induction paras as [|para paras IH]; intros buffer w; simpl.
  - destruct (nonempty buffer).
    + destruct (dict_copy_extends md w) as (l & w' & Hc & Hext & Hl).
      exists [Chunk.Make (strip buffer) l], w'.
      rewrite (M_bind_Ok _ _ _ _ _ Hc). split; [done|]. split; [done|].
      by intros c ->%list_elem_of_singleton.
    + exists [], w. split; [done|]. split; [apply extends_refl|].
      intros c Hc. by apply elem_of_nil in Hc.
  - destruct (length buffer + length para <=? CHUNK_SIZE); [apply IH|].
    destruct (dict_copy_extends md w) as (l & w1 & Hc & Hext1 & Hl).
    destruct (IH para w1) as (cs & w' & Hcs & Hext2 & Hall).
    exists (Chunk.Make (strip buffer) l :: cs), w'.
    rewrite (M_bind_Ok _ _ _ _ _ Hc), (M_bind_Ok _ _ _ _ _ Hcs).
    split; [done|]. split; [apply (extends_trans _ _ _ [l] _ Hext1 Hext2)|].
    assert (default ∅ (heap w1 !! md) = default (∅ : gmap string str) (heap w !! md)) as Hmd.
    { destruct (heap w !! md) as [d|] eqn:Hd.
      - by rewrite (extends_lookup _ _ _ _ _ Hext1 Hd).
      - destruct (decide (md = l)) as [->|Hne]; [by rewrite Hl|].
        destruct (heap w1 !! md) as [d'|] eqn:Hd'; [|done].
        destruct Hext1 as (_ & _ & _ & _ & Hdom).
        assert (md ∈ dom (heap w1)) as [Hin|Hin]%Hdom by (apply elem_of_dom; eauto).
        + apply elem_of_dom in Hin as [? ?]. congruence.
        + by apply list_elem_of_singleton in Hin. }
    intros c [->|Hin]%elem_of_cons; simpl.
    + by apply (extends_lookup _ _ _ _ _ Hext2).
    + rewrite <- Hmd. by apply Hall.
Qed.

Lemma chunk_documents_spec docs w :
  (∀ doc, doc ∈ docs → Document.metadata doc ∈ dom (heap w)) →
  ∃ cs w', chunk_documents docs w = (Ok cs, w')
    ∧ extends w w' (map Chunk.metadata cs)
    ∧ ∀ c, c ∈ cs → ∃ doc, doc ∈ docs
        ∧ heap w' !! Chunk.metadata c = heap w !! Document.metadata doc.
Proof.
  revert w. induction docs as [|doc docs IH]; intros w Hdocs; simpl.
  - exists [], w. split; [done|]. split; [apply extends_refl|].
    intros c Hc. by apply elem_of_nil in Hc.
  - destruct (chunk_paragraphs_spec (Document.metadata doc)
                (paragraphs (Document.content doc)) [] w)
      as (cs1 & w1 & H1 & Hext1 & Hall1).
    destruct (IH w1) as (cs2 & w' & H2 & Hext2 & Hall2).
    { intros d Hd. destruct Hext1 as (_ & _ & _ & _ & Hdom).
      apply Hdom. left. apply Hdocs. by right. }
    exists (cs1 ++ cs2), w'.
    rewrite (M_bind_Ok _ _ _ _ _ H1), (M_bind_Ok _ _ _ _ _ H2).
    split; [done|]. split; [rewrite map_app; by eapply extends_trans|].
    intros c [Hc|Hc]%elem_of_app.
    + exists doc. split; [by left|].
      rewrite (extends_lookup _ _ _ _ _ Hext2 (Hall1 c Hc)).
      assert (Document.metadata doc ∈ dom (heap w)) as [d Hd]%elem_of_dom
        by (apply Hdocs; by left).
      by rewrite Hd.
    + destruct (Hall2 c Hc) as (d & Hd & Hlook). exists d. split; [by right|].
      rewrite Hlook. apply (extends_lookup_old _ _ _ _ Hext1), Hdocs. by right.
Qed.

Lemma chunk_documents_total docs w :
  ∃ cs w', chunk_documents docs w = (Ok cs, w') ∧ trace w' = trace w.
Proof.
  revert w. induction docs as [|doc docs IH]; intros w; simpl; [by eexists _, _|].
  destruct (chunk_paragraphs_spec (Document.metadata doc)
              (paragraphs (Document.content doc)) [] w)
    as (cs1 & w1 & H1 & (Ht1 & _) & _).
  destruct (IH w1) as (cs2 & w' & H2 & Ht2).
  rewrite (M_bind_Ok _ _ _ _ _ H1), (M_bind_Ok _ _ _ _ _ H2).
  eexists _, _. split; [done|]. congruence.
Qed.


(** C10. When the first paragraph of a document is longer than the
    threshold, [chunk_documents] emits, for that document, a chunk with
    empty text and then the chunk of the oversize paragraph itself. *)
Theorem oversize_first_paragraph_emits_empty_chunk
    (before after : list Document.t) (doc : Document.t) (p : str) (rest : list str)
    (w : world) :
  paragraphs (Document.content doc) = p :: rest →
  CHUNK_SIZE < length p →
  ∃ pre m1 m2 post w',
    chunk_documents (before ++ doc :: after) w
    = (Ok (pre ++ Chunk.Make [] m1 :: Chunk.Make p m2 :: post), w').
Proof.
  intros Hparas Hlong. revert w.
  assert (strip p = p) as Hp.
  { apply (paragraphs_stripped (Document.content doc)). rewrite Hparas. by left. }
  induction before as [|d before IH]; intros w; simpl.
  - rewrite Hparas. simpl.
    assert ((length p <=? CHUNK_SIZE) = false) as -> by (apply Nat.leb_gt; lia).
    destruct (dict_copy_extends (Document.metadata doc) w) as (m1 & w1 & H1 & _).
    destruct (dict_copy_extends (Document.metadata doc) w1) as (m2 & w2 & H2 & _).
    assert (∃ later w3, chunk_paragraphs (Document.metadata doc) rest p w1
                        = (Ok (Chunk.Make p m2 :: later), w3)) as (later & w3 & H3).
    { destruct rest as [|q rest]; simpl.
      - assert (nonempty p = true) as -> by (destruct p; [simpl in Hlong; lia | done]).
        rewrite (M_bind_Ok _ _ _ _ _ H2), Hp. by eexists _, _.
      - assert (q ∈ paragraphs (Document.content doc)) as Hq
          by (rewrite Hparas; right; by left).
        assert ((length p + length q <=? CHUNK_SIZE) = false) as ->
          by (apply Nat.leb_gt; lia).
        destruct (chunk_paragraphs_spec (Document.metadata doc) rest q w2)
          as (cs & w3 & H3 & _).
        rewrite (M_bind_Ok _ _ _ _ _ H2), (M_bind_Ok _ _ _ _ _ H3), Hp.
        by eexists _, _. }
    destruct (chunk_documents_total after w3) as (cs & w' & H4 & _).
    exists [], m1, m2, (later ++ cs), w'.
    unfold mbind at 1, M_bind at 1.
    rewrite (M_bind_Ok _ _ _ _ _ H1), (M_bind_Ok _ _ _ _ _ H3). simpl.
    by rewrite (M_bind_Ok _ _ _ _ _ H4).
  - destruct (chunk_paragraphs_spec (Document.metadata d)
                (paragraphs (Document.content d)) [] w) as (cs1 & w1 & H1 & _).
    destruct (IH w1) as (pre & m1 & m2 & post & w' & H2).
    exists (cs1 ++ pre), m1, m2, post, w'.
    rewrite (M_bind_Ok _ _ _ _ _ H1), (M_bind_Ok _ _ _ _ _ H2). simpl.
    by rewrite <- app_assoc.
Qed.


(** C10 at a document whose only paragraph has 501 characters. *)
Lemma oversize_first_paragraph_witness :
  ∃ pre m1 m2 post w',
    chunk_documents ([] ++ oversize_document :: []) example_world
    = (Ok (pre ++ Chunk.Make [] m1 :: Chunk.Make (repeat "a"%char 501) m2 :: post), w').
Proof.
  apply (oversize_first_paragraph_emits_empty_chunk [] [] oversize_document
           (repeat "a"%char 501) [] example_world).
  - vm_compute. reflexivity.
  - vm_compute. lia.
Defined.

(** The run on that document, computed: an empty chunk, then the paragraph. *)
Example oversize_document_chunks :
  (λ r, map Chunk.text <$> fst r) (chunk_documents [oversize_document] example_world)
  = Ok [[]; repeat "a"%char 501].
Proof. vm_compute. reflexivity. Qed.

(** ** Noise filtering *)

Lemma is_policy_spec md :
  is_policy md = true ↔ md !! "doc_type"%string = Some (chars "policy").
Proof.
  unfold is_policy. destruct (md !! "doc_type"%string) as [v|]; [|done].
  rewrite str_eqb_eq. split; congruence.
Qed.

Lemma filter_partition_length {A} (p : A → bool) (l : list A) :
  length (List.filter p l) + length (List.filter (λ x, negb (p x)) l) = length l.
Proof. induction l as [|x l IH]; simpl; [done|]. destruct (p x); simpl; lia. Qed.

Lemma filter_noise_run chunks w :
  filter_noise chunks w = (Ok (List.filter (policy_chunk w) chunks), w).
Proof.
  induction chunks as [|c chunks IH]; simpl; [done|].
  unfold mbind, M_bind, read_dict. simpl. rewrite IH. done.
Qed.

(** C8. [filter_noise] returns exactly the chunks whose [doc_type] is
    ["policy"], in their input order, and changes nothing; kept and dropped
    chunks add up to the input, and the count it reports as noise is the
    number of dropped chunks. *)
Theorem filter_noise_keeps_policy chunks w :
  let kept := List.filter (policy_chunk w) chunks in
  let dropped := List.filter (λ c, negb (policy_chunk w c)) chunks in
  filter_noise chunks w = (Ok kept, w)
  ∧ (∀ c, policy_chunk w c = true
          ↔ metadata_of w c !! "doc_type"%string = Some (chars "policy"))
  ∧ length kept + length dropped = length chunks
  ∧ noise_count chunks kept = length dropped.
Proof.
  intros kept dropped. split; [apply filter_noise_run|].
  split; [intros c; apply is_policy_spec|].
  pose proof (filter_partition_length (policy_chunk w) chunks) as Hlen.
  fold kept dropped in Hlen. unfold noise_count. lia.
Qed.

(** ** Conflict resolution *)

Lemma dt_lt_same a b : aware a = aware b → dt_lt a b = Ok (dt_key a <? dt_key b)%Z.
Proof. unfold aware, dt_lt. destruct (utcoffset a), (utcoffset b); done. Qed.

(** Naive against aware: the comparison raises. *)
Lemma dt_lt_mixed a b : aware a ≠ aware b → dt_lt a b = Raise TypeError.
Proof. unfold aware, dt_lt. destruct (utcoffset a), (utcoffset b); done. Qed.

Lemma insert_desc_same x l :
  (∀ y, y ∈ l → aware (fst x) = aware (fst y)) →
  ∃ l', insert_desc x l = Ok l'
    ∧ (∀ y, y ∈ l' ↔ y = x ∨ y ∈ l)
    ∧ head l' = Some (match head l with
                      | Some y => if (dt_key (fst x) <? dt_key (fst y))%Z then y else x
                      | None => x
                      end).
Proof.
  induction l as [|y l IH]; intros Hsame; cbn [insert_desc head].
  - exists [x]. split; [done|]. split; [|done].
    intros y. rewrite list_elem_of_singleton, elem_of_nil. tauto.
  - rewrite dt_lt_same by (apply Hsame; by left). rewrite result_bind_Ok.
    destruct (dt_key (fst x) <? dt_key (fst y))%Z.
    + destruct IH as (l' & -> & Hmem & _); [intros z Hz; apply Hsame; by right|].
      exists (y :: l'). split; [done|]. split; [|done].
      intros z. rewrite !elem_of_cons, Hmem. tauto.
    + exists (x :: y :: l). split; [done|]. split; [|done].
      intros z. rewrite !elem_of_cons. tauto.
Qed.

Lemma sort_desc_same l :
  (∀ x y, x ∈ l → y ∈ l → aware (fst x) = aware (fst y)) →
  ∃ l', sort_desc l = Ok l' ∧ (∀ y, y ∈ l' ↔ y ∈ l) ∧ head l' = newest l.
Proof.
  induction l as [|x l IH]; intros Hsame; cbn [sort_desc newest].
  - by exists [].
  - destruct IH as (s & -> & Hmem & Hhead).
    { intros y z Hy Hz. apply Hsame; by right. }
    rewrite result_bind_Ok.
    destruct (insert_desc_same x s) as (l' & -> & Hmem' & Hhead').
    { intros y Hy%Hmem. apply Hsame; [by left | by right]. }
    exists l'. split; [done|]. split.
    + intros y. rewrite Hmem', elem_of_cons, Hmem. tauto.
    + rewrite Hhead', Hhead. destruct (newest l) as [y|]; [|done].
      by destruct (_ <? _)%Z.
Qed.

Section ResolverFacts.
Variable fromisoformat : str → option datetime.
Variable w : world.

Local Abbreviation date_of := (date_of fromisoformat w).
Local Abbreviation dated_entries := (dated_entries fromisoformat w).

Lemma dated_entries_cons c chunks :
  dated_entries (c :: chunks)
  = match date_of c with
    | Some d => (d, c) :: dated_entries chunks
    | None => dated_entries chunks
    end.
Proof. unfold dated_entries. simpl. by destruct (date_of c). Qed.

Lemma elem_of_dated_entries d c chunks :
  (d, c) ∈ dated_entries chunks ↔ c ∈ chunks ∧ date_of c = Some d.
Proof.
  unfold dated_entries. rewrite list_elem_of_omap. split.
  - intros (c' & Hin & Heq). destruct (date_of c') as [d'|] eqn:Hd; [|done].
    simpl in Heq. by injection Heq as <- <-.
  - intros [Hin Hd]. exists c. by rewrite Hd.
Qed.

(** The loop collects the dated entries when every dated chunk can be
    named in the trace line. *)
Lemma policies_with_dates_run chunks :
  (∀ c, c ∈ chunks → is_Some (date_of c) →
        is_Some (metadata_of w c !! "filename"%string)) →
  policies_with_dates fromisoformat chunks w = (Ok (dated_entries chunks), w).
Proof.
  induction chunks as [|c chunks IH]; intros Hnames; [done|].
  rewrite dated_entries_cons. cbn [policies_with_dates].
  unfold mbind at 1, M_bind at 1, read_dict at 1. simpl.
  specialize (Hnames c (list_elem_of_here _ _)) as Hc.
  unfold date_of, metadata_of in *.
  destruct (default ∅ (heap w !! Chunk.metadata c) !! "effective_date"%string)
    as [s|] eqn:Hs; rewrite ?Hs.
  2: { unfold mbind, M_bind. simpl. rewrite IH; [done|].
       intros c' Hc'. apply Hnames. by right. }
  destruct (nonempty s).
  2: { unfold mbind, M_bind. simpl. rewrite IH; [done|].
       intros c' Hc'. apply Hnames. by right. }
  destruct (fromisoformat s) as [d|].
  2: { unfold mbind, M_bind. simpl. rewrite IH; [done|].
       intros c' Hc'. apply Hnames. by right. }
  destruct Hc as [name Hname]; [done|].
  unfold mbind, M_bind, lift, dict_getitem. simpl. rewrite Hname. simpl.
  rewrite IH; [done|]. intros c' Hc'. apply Hnames. by right.
Qed.

(** What [newest] picks among the dated entries of [chunks]: a chunk at
    least as new as every dated chunk and strictly newer than every dated
    chunk before it. *)
Lemma newest_dated_entries chunks d c :
  newest (dated_entries chunks) = Some (d, c) →
  ∃ i, chunks !! i = Some c ∧ date_of c = Some d
    ∧ (∀ j c' d', chunks !! j = Some c' → date_of c' = Some d' →
         (dt_key d' ≤ dt_key d)%Z)
    ∧ (∀ j c' d', j < i → chunks !! j = Some c' → date_of c' = Some d' →
         (dt_key d' < dt_key d)%Z).
Proof.
  revert d c. induction chunks as [|c0 chunks IH]; intros d c; [done|].
  rewrite dated_entries_cons. destruct (date_of c0) as [d0|] eqn:Hd0.
  - simpl. destruct (newest (dated_entries chunks)) as [[d1 c1]|] eqn:Hn.
    + destruct (IH d1 c1 eq_refl) as (i & Hi & Hd1 & Hall & Hbefore). simpl.
      destruct (dt_key d0 <? dt_key d1)%Z eqn:Hlt.
      * apply Z.ltb_lt in Hlt. intros [= <- <-].
        exists (S i). split; [done|]. split; [done|]. split.
        -- intros [|j] c' d'; simpl; [|apply Hall].
           intros [= <-] Hd'. rewrite Hd0 in Hd'. injection Hd' as <-. lia.
        -- intros [|j] c' d' Hj; simpl; [|apply Hbefore; lia].
           intros [= <-] Hd'. rewrite Hd0 in Hd'. by injection Hd' as <-.
      * apply Z.ltb_ge in Hlt. intros [= <- <-].
        exists 0. split; [done|]. split; [done|]. split; [|intros; lia].
        intros [|j] c' d'; simpl.
        -- intros [= <-] Hd'. rewrite Hd0 in Hd'. injection Hd' as <-. lia.
        -- intros Hj Hd'. specialize (Hall j c' d' Hj Hd'). lia.
    + intros [= <- <-].
      exists 0. split; [done|]. split; [done|]. split; [|intros; lia].
      intros [|j] c' d'; simpl.
      * intros [= <-] Hd'. rewrite Hd0 in Hd'. injection Hd' as <-. lia.
      * intros Hj Hd'.
        assert ((d', c') ∈ dated_entries chunks) as Hin.
        { apply elem_of_dated_entries. split; [|done]. by eapply list_elem_of_lookup_2. }
        destruct (dated_entries chunks); [by apply elem_of_nil in Hin|].
        simpl in Hn. by repeat case_match.
  - intros Hn. destruct (IH d c Hn) as (i & Hi & Hd & Hall & Hbefore).
    exists (S i). split; [done|]. split; [done|]. split.
    + intros [|j] c' d'; simpl; [|apply Hall].
      intros [= <-] Hd'. congruence.
    + intros [|j] c' d' Hj; simpl; [|apply Hbefore; lia].
      intros [= <-] Hd'. congruence.
Qed.

Lemma newest_None l : newest l = None → l = [].
Proof. destruct l as [|x l]; [done|]. simpl. by repeat case_match. Qed.

End ResolverFacts.

(** C1 (amended). On a non-empty list in which every chunk with a
    parseable date also has a [filename] and the parseable dates are all
    naive or all aware, [resolve_policy_conflicts] returns a chunk and
    changes nothing: the first chunk when no date parses, and otherwise a
    dated chunk that is at least as recent as every dated chunk and
    strictly more recent than every dated chunk before it in the input
    (the earliest of the most recent ones). Chunks whose date is missing,
    empty or unparseable take no part. *)
Theorem resolve_policy_conflicts_newest
    (fromisoformat : str → option datetime) (chunks : list Chunk.t) (w : world) :
  chunks ≠ [] →
  (∀ c, c ∈ chunks → is_Some (date_of fromisoformat w c) →
        is_Some (metadata_of w c !! "filename"%string)) →
  (∀ c1 c2 d1 d2, c1 ∈ chunks → c2 ∈ chunks →
        date_of fromisoformat w c1 = Some d1 → date_of fromisoformat w c2 = Some d2 →
        aware d1 = aware d2) →
  ∃ c, resolve_policy_conflicts fromisoformat chunks w = (Ok c, w)
    ∧ ((∀ c', c' ∈ chunks → date_of fromisoformat w c' = None) ∧ head chunks = Some c
       ∨ ∃ i d, chunks !! i = Some c ∧ date_of fromisoformat w c = Some d
           ∧ (∀ j c' d', chunks !! j = Some c' → date_of fromisoformat w c' = Some d' →
                (dt_key d' ≤ dt_key d)%Z)
           ∧ (∀ j c' d', j < i → chunks !! j = Some c' →
                date_of fromisoformat w c' = Some d' → (dt_key d' < dt_key d)%Z)).
Proof.
  intros Hne Hnames Hsame. unfold resolve_policy_conflicts.
  rewrite (M_bind_Ok _ _ _ _ _ (policies_with_dates_run fromisoformat w chunks Hnames)).
  destruct (dated_entries fromisoformat w chunks) as [|e l] eqn:Hdated;
    cbn [nonempty].
  - destruct chunks as [|c chunks]; [done|]. exists c. split; [done|]. left.
    split; [|done]. intros c' Hc'.
    destruct (date_of fromisoformat w c') as [d|] eqn:Hd; [|done].
    assert ((d, c') ∈ dated_entries fromisoformat w (c :: chunks)) as Hin
      by by apply elem_of_dated_entries.
    rewrite Hdated in Hin. by apply elem_of_nil in Hin.
  - destruct (sort_desc_same (e :: l)) as (sorted & Hsort & _ & Hhead).
    { intros [d1 c1] [d2 c2]. rewrite <- Hdated, !elem_of_dated_entries.
      intros [? ?] [? ?]. simpl. eauto. }
    destruct (newest (e :: l)) as [[d c]|] eqn:Hnew;
      [|by apply newest_None in Hnew].
    exists c. unfold mbind, M_bind, lift. rewrite Hsort. simpl.
    destruct sorted as [|x sorted]; [done|]. injection Hhead as ->. simpl.
    split; [done|]. right. rewrite <- Hdated in Hnew.
    apply newest_dated_entries in Hnew as (i & ?). by exists i, d.
Qed.

Lemma date_of_versions c :
  c ∈ versions →
  ∃ d, date_of fromisoformat_core versions_world c = Some d ∧ aware d = false
       ∧ is_Some (metadata_of versions_world c !! "filename"%string).
Proof.
  intros Hc. apply list_elem_of_In in Hc. simpl in Hc.
  destruct Hc as [<-|[<-|[<-|[<-|[]]]]]; eexists;
    (split; [vm_compute; reflexivity|]; split; [reflexivity|]; vm_compute; eauto).
Qed.

(** C1 at the four versions above, all dated and named, all naive. *)
Lemma resolve_policy_conflicts_newest_witness :
  ∃ c, resolve_policy_conflicts fromisoformat_core versions versions_world
       = (Ok c, versions_world)
    ∧ ((∀ c', c' ∈ versions → date_of fromisoformat_core versions_world c' = None)
       ∧ head versions = Some c
       ∨ ∃ i d, versions !! i = Some c
           ∧ date_of fromisoformat_core versions_world c = Some d
           ∧ (∀ j c' d', versions !! j = Some c' →
                date_of fromisoformat_core versions_world c' = Some d' →
                (dt_key d' ≤ dt_key d)%Z)
           ∧ (∀ j c' d', j < i → versions !! j = Some c' →
                date_of fromisoformat_core versions_world c' = Some d' →
                (dt_key d' < dt_key d)%Z)).
Proof.
  apply (resolve_policy_conflicts_newest fromisoformat_core versions versions_world).
  - discriminate.
  - intros c Hc _. by destruct (date_of_versions c Hc) as (d & _ & _ & ?).
  - intros c1 c2 d1 d2 H1 H2 Hd1 Hd2.
    destruct (date_of_versions c1 H1) as (e1 & He1 & Ha1 & _).
    destruct (date_of_versions c2 H2) as (e2 & He2 & Ha2 & _).
    congruence.
Defined.

(** The three versions of the specification's example, and a copy of the
    newest one ranked after it: the newest wins, the earlier of the two
    equal dates. *)
Example resolve_versions :
  fst (resolve_policy_conflicts fromisoformat_core versions versions_world)
  = Ok (Chunk.Make (chars "Fifteen days of leave.") 1).
Proof. vm_compute. reflexivity. Qed.

(** C1 (counterexample). Two policy chunks with parseable dates, one
    written with a UTC offset and one without: the resolver returns no
    chunk, the sort raises [TypeError]. *)
Lemma resolve_mixed_awareness_raises :
  mixed_versions ≠ []
  ∧ (∀ c, c ∈ mixed_versions → is_Some (date_of fromisoformat_core mixed_world c))
  ∧ resolve_policy_conflicts fromisoformat_core mixed_versions mixed_world
    = (Raise TypeError, mixed_world).
Proof.
  split; [discriminate|]. split.
  - intros c Hc. apply list_elem_of_In in Hc. simpl in Hc.
    destruct Hc as [<-|[<-|[]]]; vm_compute; eauto.
  - vm_compute. reflexivity.
Qed.

(** A dated chunk without [filename] metadata: the trace line of the
    collecting loop raises [KeyError], which its [except ValueError] does
    not catch. *)
Example resolve_nameless_raises :
  resolve_policy_conflicts fromisoformat_core nameless_versions nameless_world
  = (Raise KeyError, nameless_world).
Proof. vm_compute. reflexivity. Qed.

(** ** The pipeline *)

Lemma extract_effective_date_returns path_exists getmtime text filename filepath :
  ∃ d, extract_effective_date path_exists getmtime text filename filepath = Ok d.
Proof.
  unfold extract_effective_date.
  destruct (extract_date_from_content_total text) as [[d|] ->]; simpl; [by eexists|].
  destruct (extract_date_from_filename_total filename) as [[d|] ->]; simpl; [by eexists|].
  destruct filepath as [p|]; [destruct (nonempty p && path_exists p)%bool|];
    by eexists.
Qed.

Lemma load_files_total path_exists getmtime read_file filenames w :
  ∃ docs w', load_files path_exists getmtime read_file filenames w = (Ok docs, w')
             ∧ trace w' = trace w.
Proof.
  revert w. induction filenames as [|filename filenames IH]; intros w;
    cbn [load_files]; [by eexists _, _|].
  destruct (negb (endswith (chars ".txt") filename)); [apply IH|].
  destruct (extract_effective_date_returns path_exists getmtime
              (read_file (path_join KNOWLEDGE_BASE_DIR filename)) filename
              (Some (path_join KNOWLEDGE_BASE_DIR filename))) as [d Hd].
  unfold mbind at 1, M_bind at 1, lift at 1. rewrite Hd.
  unfold mbind at 1, M_bind at 1, new_dict at 1. cbn [heap trace].
  set (w1 := World _ _). destruct (IH w1) as (docs & w' & Hrun & Htrace).
  rewrite (M_bind_Ok _ _ _ _ _ Hrun). eexists _, _. split; [done|]. by rewrite Htrace.
Qed.

Lemma to_langchain_documents_run chunks w :
  ∃ lc_docs, to_langchain_documents chunks w = (Ok lc_docs, w).
Proof.
  induction chunks as [|c chunks [lc IH]]; cbn [to_langchain_documents]; [by eexists|].
  unfold mbind, M_bind, read_dict. rewrite IH. by eexists.
Qed.

Lemma chunks_of_docs_spec docs w :
  ∃ cs w', chunks_of_docs docs w = (Ok cs, w')
    ∧ extends w w' (map Chunk.metadata cs)
    ∧ Forall2 (λ c doc, heap w' !! Chunk.metadata c = Some (snd doc)) cs docs.
Proof.
  revert w. induction docs as [|doc docs IH]; intros w; cbn [chunks_of_docs].
  - exists [], w. split; [done|]. split; [apply extends_refl | constructor].
  - destruct (new_dict_extends (snd doc) w) as (l & w1 & Hnew & Hext1 & Hl).
    destruct (IH w1) as (cs & w' & Hrun & Hext2 & Hall).
    rewrite (M_bind_Ok _ _ _ _ _ Hnew), (M_bind_Ok _ _ _ _ _ Hrun).
    exists (Chunk.Make (fst doc) l :: cs), w'. split; [done|].
    split; [apply (extends_trans _ _ _ [l] _ Hext1 Hext2)|].
    constructor; [|done]. by apply (extends_lookup _ _ _ _ _ Hext2).
Qed.

Lemma filter_none_policy cs docs w :
  Forall2 (λ c doc, heap w !! Chunk.metadata c = Some (snd doc)) cs docs →
  Forall (λ doc : str * gmap string str, is_policy (snd doc) = false) docs →
  List.filter (policy_chunk w) cs = [].
Proof.
  induction 1 as [|c doc cs docs Hc _ IH]; intros Hdocs; [done|].
  apply Forall_cons in Hdocs as [Hdoc Hdocs]. simpl.
  unfold policy_chunk at 1, metadata_of. rewrite Hc. simpl. rewrite Hdoc. auto.
Qed.

Lemma print_run line w :
  print line w = (Ok tt, World (heap w) (trace w ++ [Stdout line])).
Proof. reflexivity. Qed.

(** C9. When the index finds no policy document for the query, so that
    nothing is left after filtering, [run_pipeline] returns normally, its
    last output is the "No relevant policy documents found." line, and the
    run makes no call of the language model. *)
Theorem run_pipeline_no_policy
    (fromisoformat : str → option datetime) (llm : str → str)
    (path_exists : str → bool) (getmtime : str → datetime)
    (listdir : str → list str) (read_file : str → str)
    (vstore : Type) (from_documents : list (str * gmap string str) → vstore)
    (load_local : vstore)
    (similarity_search : vstore → str → nat → list (str * gmap string str))
    (query : str) (w : world) :
  (∀ vs, Forall (λ doc, is_policy (snd doc) = false) (similarity_search vs query TOP_K)) →
  ∃ w' new,
    run_pipeline fromisoformat llm path_exists getmtime listdir read_file
      vstore from_documents load_local similarity_search query w = (Ok tt, w')
    ∧ trace w' = trace w ++ new ++ [Stdout msg_no_policy]
    ∧ ∀ prompt, LLMInvoke prompt ∉ new.
Proof.
  intros Hnone. unfold run_pipeline.
  rewrite !(M_bind_Ok _ _ _ _ _ (print_run _ _)).
  set (w0 := World _ _).
  assert (∃ vs w1 new1,
            (if path_exists FAISS_INDEX_DIR
             then _ ← print msg_loading; load_vector_store vstore load_local
             else _ ← print msg_building;
                  documents ← load_documents path_exists getmtime listdir read_file;
                  chunks ← chunk_documents documents;
                  build_vector_store vstore from_documents chunks) w0 = (Ok vs, w1)
            ∧ trace w1 = trace w0 ++ new1 ∧ ∀ prompt, LLMInvoke prompt ∉ new1)
    as (vs & w1 & new1 & Hstore & Htrace1 & Hnew1).
  { destruct (path_exists FAISS_INDEX_DIR).
    - eexists _, _, [Stdout msg_loading]. split; [reflexivity|]. split; [done|].
      intros prompt [=]%list_elem_of_singleton.
    - rewrite (M_bind_Ok _ _ _ _ _ (print_run _ _)). unfold load_documents.
      set (w1 := World _ _).
      destruct (load_files_total path_exists getmtime read_file
                  (listdir KNOWLEDGE_BASE_DIR) w1) as (docs & w2 & Hload & Ht2).
      rewrite (M_bind_Ok _ _ _ _ _ Hload).
      destruct (chunk_documents_total docs w2) as (cs & w3 & Hchunk & Ht3).
      rewrite (M_bind_Ok _ _ _ _ _ Hchunk). unfold build_vector_store.
      destruct (to_langchain_documents_run cs w3) as [lc Hlc].
      rewrite (M_bind_Ok _ _ _ _ _ Hlc).
      eexists _, _, [Stdout msg_building; IndexSaved]. split; [reflexivity|].
      split.
      + cbn [trace]. rewrite Ht3, Ht2. unfold w1. cbn [trace].
        by rewrite <- app_assoc.
      + intros prompt Hin. apply list_elem_of_In in Hin. simpl in Hin.
        by destruct Hin as [|[|[]]]. }
  rewrite (M_bind_Ok _ _ _ _ _ Hstore). unfold retrieve_chunks.
  destruct (chunks_of_docs_spec (similarity_search vs query TOP_K) w1)
    as (cs & w2 & Hret & (Ht2 & _) & Hmeta).
  rewrite (M_bind_Ok _ _ _ _ _ Hret), (M_bind_Ok _ _ _ _ _ (filter_noise_run cs w2)).
  rewrite (filter_none_policy _ _ _ Hmeta (Hnone vs)). cbn [nonempty negb].
  rewrite print_run.
  exists (World (heap w2) (trace w2 ++ [Stdout msg_no_policy])),
    ([Stdout (newline :: banner); Stdout msg_running; Stdout banner] ++ new1).
  split; [done|]. split.
  - cbn [trace]. rewrite Ht2, Htrace1. unfold w0. cbn [trace].
    by rewrite <- !app_assoc.
  - intros prompt [Hin|Hin]%elem_of_app; [|by apply (Hnew1 prompt)].
    apply list_elem_of_In in Hin. simpl in Hin. by destruct Hin as [|[|[|[]]]].
Qed.

(** C9 in an environment whose index exists and finds only a lunch menu. *)
Lemma run_pipeline_no_policy_witness :
  ∃ w' new,
    run_pipeline fromisoformat_core (λ _, []) (λ _, true)
      (λ _, DateTime 2024 3 1 0 0 0 0 None) (λ _, []) (λ _, [])
      unit (λ _, tt) tt menu_search (chars "How many days of leave?") example_world
    = (Ok tt, w')
    ∧ trace w' = trace example_world ++ new ++ [Stdout msg_no_policy]
    ∧ ∀ prompt, LLMInvoke prompt ∉ new.
Proof.
  apply (run_pipeline_no_policy fromisoformat_core (λ _, []) (λ _, true)
           (λ _, DateTime 2024 3 1 0 0 0 0 None) (λ _, []) (λ _, [])
           unit (λ _, tt) tt menu_search (chars "How many days of leave?") example_world).
  intros vs. unfold menu_search. constructor; [|constructor].
  vm_compute. reflexivity.
Defined.

(** ** The bare-year pattern of the file-name strategy *)

Lemma rep_exact {R} p n b s (k : option ascii → str → option R) :
  rep p true n (Some n) b s k
  = if ((n <=? length s) && forallb p (take n s))%bool
    then k (after b (take n s)) (drop n s) else None.
Proof.
  revert b s. induction n as [|n IH]; intros b s.
  - destruct s as [|c s]; simpl; [reflexivity|]. by rewrite andb_false_r.
  - destruct s as [|c s]; simpl; [reflexivity|].
    rewrite andb_true_r. destruct (p c); simpl.
    + rewrite IH. destruct ((n <=? length s) && forallb p (take n s))%bool; [|done].
      by destruct (k _ _).
    + by rewrite andb_false_r.
Qed.








(** The specification's examples of the file-name strategy. *)
Example filename_examples :
  extract_date_from_filename (chars "WFH_Policy_2024.txt")
    = Ok (Some (DateTime 2024 1 1 0 0 0 0 None))
  ∧ extract_date_from_filename (chars "archive_1999_report.txt") = Ok None
  ∧ extract_date_from_filename (chars "policy_Jan_2024.txt")
    = Ok (Some (DateTime 2024 1 1 0 0 0 0 None)).
Proof. repeat split; vm_compute; reflexivity. Qed.

(** ** The "Effective Date:" pattern of the content strategy *)

Lemma rmatch_rlit {R} ic l st (k : mstate → option R) :
  rmatch ic (rlit l) st k
  = if prefix_match ic l (rest st)
    then k (MState (after (before st) (take (length l) (rest st)))
              (drop (length l) (rest st)) (caps st))
    else None.
Proof.
  revert st. induction l as [|c l IH]; intros [b s cp]; [done|].
  destruct l as [|c' l'].
  - cbn [rlit rmatch rest before caps prefix_match length].
    destruct s as [|x s]; [done|]. rewrite andb_true_r.
    by destruct (chr_match ic c x).
  - change (rlit (c :: c' :: l')) with (RCat (RChr c) (rlit (c' :: l'))).
    cbn [rmatch rest before caps]. destruct s as [|x s]; [done|].
    cbn [prefix_match]. destruct (chr_match ic c x); [|done].
    rewrite IH. done.
Qed.

Lemma rmatch_rexact {R} ic cs n st (k : mstate → option R) :
  rmatch ic (rexact cs n) st k
  = if ((n <=? length (rest st)) && forallb (cset_mem ic cs) (take n (rest st)))%bool
    then k (MState (after (before st) (take n (rest st))) (drop n (rest st)) (caps st))
    else None.
Proof. unfold rexact. cbn [rmatch]. by rewrite rep_exact. Qed.

(** The search passes over the positions at which nothing matches. *)
Lemma search_from_no_match ic r n : ∀ b s pos,
  n ≤ length s →
  no_match_before ic r b s n = true →
  search_from ic r b s pos
  = search_from ic r (after b (take n s)) (drop n s) (pos + n).
Proof.
  induction n as [|n IH]; intros b s pos Hlen; cbn [no_match_before].
  - intros _. by rewrite Nat.add_0_r.
  - destruct s as [|c s]; [simpl in Hlen; lia|].
    intros Hn. cbn [no_match_before] in Hn.
    destruct (match_here ic r b (c :: s)) eqn:Hm; [done|].
    cbn [search_from]. rewrite Hm. cbn [length] in Hlen.
    assert (n ≤ length s) as Hlen' by lia.
    rewrite (IH (Some c) s (S pos) Hlen' Hn). cbn [take drop after].
    by rewrite Nat.add_succ_r.
Qed.

Lemma lower_char_cases x c :
  lower_char x = c → x = c ∨ x = ascii_of_N (code c - 32).
Proof.
  intros <-. destruct x as [[] [] [] [] [] [] [] []]; vm_compute; auto.
Qed.

Ltac case_of_char H :=
  let E := fresh "E" in
  pose proof (lower_char_cases _ _ H) as [E|E]; vm_compute in E; subst;
  vm_compute in H; try discriminate H; clear H.

(** At a case variant of the label and date, the pattern matches and
    captures a date that parses to 3 March 2023, whatever follows. *)
Lemma match_here_effective_mar_3 b u post :
  lower u = lower (chars "Effective Date: Mar 3, 2023") →
  ∃ st g, match_here true re_effective b (u ++ post) = Some st
    ∧ assoc 1 (caps st) = Some g
    ∧ strptime g "%b %d, %Y" = Ok (DateTime 2023 3 3 0 0 0 0 None).
Proof.
  intros H.
  assert (lower (chars "Effective Date: Mar 3, 2023")
          = chars "effective date: mar 3, 2023") as Hl by (vm_compute; reflexivity).
  rewrite Hl in H. clear Hl. unfold lower in H. cbn in H.
  do 27 (destruct u as [|? u]; [discriminate|]; injection H as ? H).
  destruct u; [|discriminate]. clear H.
  case_of_char H15. case_of_char H19. case_of_char H20. case_of_char H21.
  case_of_char H22. case_of_char H23. case_of_char H24. case_of_char H25.
  case_of_char H26.
  all: case_of_char H16; case_of_char H17; case_of_char H18.
  all: unfold match_here, re_effective, re_month_day_year; cbn [rseq rmatch app].
  all: rewrite rmatch_rlit; cbn [rest prefix_match chars list_ascii_of_string chr_match].
  all: rewrite H0, H1, H2, H3, H4, H5, H6, H7, H8, H9, H10, H11, H12, H13, H14.
  all: remember (rexact CDigit 4) as r6 eqn:Hr6; simpl.
  all: subst r6; rewrite rmatch_rexact; simpl; rewrite drop_0.
  all: match goal with
       | |- context [consumed ?l ?p] =>
           let w := eval simpl in (take 11 l) in change l with (w ++ p)
       end; rewrite consumed_app.
  all: eexists _, _; split; [reflexivity|]; split; [reflexivity|].
  all: vm_compute; reflexivity.
Qed.

Lemma search_from_here ic r b s pos st :
  match_here ic r b s = Some st → search_from ic r b s pos = Some (ReMatch pos st).
Proof. intros H. destruct s; cbn [search_from]; by rewrite H. Qed.

(** C4 (amended). When the text contains a case variant of
    [Effective Date: Mar 3, 2023] and no match of the pattern
    [Effective Date:\s*([A-Za-z]+\s+\d{1,2},\s+\d{4})] starts before it,
    content extraction, and with it [extract_effective_date], returns
    3 March 2023, whatever years stand elsewhere in the text and whatever
    the file name and path. *)
Theorem effective_date_mar_3_2023
    (path_exists : str → bool) (getmtime : str → datetime)
    (pre u post filename : str) (filepath : option str) :
  lower u = lower (chars "Effective Date: Mar 3, 2023") →
  no_match_before true re_effective None (pre ++ u ++ post) (length pre) = true →
  extract_date_from_content (pre ++ u ++ post)
    = Ok (Some (DateTime 2023 3 3 0 0 0 0 None))
  ∧ extract_effective_date path_exists getmtime (pre ++ u ++ post) filename filepath
    = Ok (DateTime 2023 3 3 0 0 0 0 None).
Proof.
  intros Hu Hfirst.
  assert (extract_date_from_content (pre ++ u ++ post)
          = Ok (Some (DateTime 2023 3 3 0 0 0 0 None))) as Hcontent.
  { unfold extract_date_from_content, content_effective, re_search.
    assert (length pre ≤ length (pre ++ u ++ post)) as Hlen
      by (rewrite length_app; lia).
    rewrite (search_from_no_match _ _ _ _ _ _ Hlen Hfirst), drop_app_length.
    destruct (match_here_effective_mar_3 (after None (take (length pre) (pre ++ u ++ post)))
                u post Hu) as (st & g & Hm & Hg & Hparse).
    rewrite (search_from_here _ _ _ _ _ _ Hm).
    unfold str_group, group, try_strptime. cbn [m_end]. rewrite Hg, result_bind_Ok, Hparse.
    reflexivity. }
  split; [done|]. unfold extract_effective_date. by rewrite Hcontent.
Qed.

(** C4 at a text and a file name that carry other years and another date,
    and in which the label stands once before, without a date. *)
Lemma effective_date_mar_3_2023_witness :
  extract_date_from_content
    (chars "Replaces the 2019 edition. Effective Date: TBD. "
     ++ chars "EFFECTIVE DATE: mar 3, 2023" ++ chars " (reviewed 2021)")
    = Ok (Some (DateTime 2023 3 3 0 0 0 0 None))
  ∧ extract_effective_date (λ _, true) (λ _, DateTime 2025 7 1 12 0 0 0 None)
      (chars "Replaces the 2019 edition. Effective Date: TBD. "
       ++ chars "EFFECTIVE DATE: mar 3, 2023" ++ chars " (reviewed 2021)")
      (chars "leave_policy_2020_05_01.txt") (Some (chars "knowledge_base/leave_policy_2020_05_01.txt"))
    = Ok (DateTime 2023 3 3 0 0 0 0 None).
Proof.
  apply (effective_date_mar_3_2023 (λ _, true) (λ _, DateTime 2025 7 1 12 0 0 0 None)
           (chars "Replaces the 2019 edition. Effective Date: TBD. ")
           (chars "EFFECTIVE DATE: mar 3, 2023") (chars " (reviewed 2021)")
           (chars "leave_policy_2020_05_01.txt")
           (Some (chars "knowledge_base/leave_policy_2020_05_01.txt")));
    vm_compute; reflexivity.
Defined.

(** An earlier label that the pattern does not match changes nothing. *)
Example effective_date_after_bare_label :
  extract_date_from_content
    (chars "Effective Date: TBD. Effective Date: Mar 3, 2023")
  = Ok (Some (DateTime 2023 3 3 0 0 0 0 None)).
Proof. vm_compute. reflexivity. Qed.

(** C4 (counterexample). A text that contains [Effective Date: Mar 3, 2023]
    after an earlier match of the pattern: the leftmost match wins, and
    the document is dated 1 January 2020. *)
Lemma effective_date_leftmost_wins :
  contains (chars "Effective Date: Mar 3, 2023")
    (chars "Effective Date: Jan 1, 2020 (superseded). Effective Date: Mar 3, 2023")
  = true
  ∧ extract_date_from_content
      (chars "Effective Date: Jan 1, 2020 (superseded). Effective Date: Mar 3, 2023")
    = Ok (Some (DateTime 2020 1 1 0 0 0 0 None))
  ∧ extract_effective_date (λ _, false) (λ _, DateTime 1970 1 1 0 0 0 0 None)
      (chars "Effective Date: Jan 1, 2020 (superseded). Effective Date: Mar 3, 2023")
      (chars "leave_policy.txt") None
    = Ok (DateTime 2020 1 1 0 0 0 0 None)
  ∧ DateTime 2020 1 1 0 0 0 0 None ≠ DateTime 2023 3 3 0 0 0 0 None.
Proof.
  split; [vm_compute; reflexivity|]. split; [vm_compute; reflexivity|].
  split; [vm_compute; reflexivity | discriminate].
Qed.

(** An earlier match whose capture does not parse is not fatal, but this
    strategy does not look further either: here the bare year of strategy 5
    dates the text. *)
Example effective_date_malformed_first :
  extract_date_from_content
    (chars "Effective Date: Foo 1, 2020. Effective Date: Mar 3, 2023")
  = Ok (Some (DateTime 2020 1 1 0 0 0 0 None)).
Proof. vm_compute. reflexivity. Qed.

(** ** The citation clean-up *)

Lemma prefix_match_false l s : prefix_match false l s = startswith l s.
Proof.
  revert s. induction l as [|c l IH]; intros [|x s]; simpl; try done.
  by rewrite IH.
Qed.

Lemma rep_star_rest p b s cp :
  ∃ b', rep p true 0 None b s (λ b1 s1, Some (MState b1 s1 cp))
        = Some (MState b' (drop_while p s) cp).
Proof.
  revert b. induction s as [|c s IH]; intros b; simpl; [by eexists|].
  destruct (p c); simpl; [|by eexists].
  destruct (IH (Some c)) as [b' ->]. by eexists.
Qed.

Lemma match_here_sources b s :
  if startswith (chars "Sources:") s
  then ∃ st, match_here false re_sources b s = Some st
             ∧ rest st = drop_while not_newline (drop 8 s)
  else match_here false re_sources b s = None.
Proof.
  unfold match_here, re_sources. cbn [rmatch]. rewrite rmatch_rlit.
  cbn [rest before caps]. rewrite prefix_match_false.
  destruct (startswith (chars "Sources:") s); [|done].
  unfold rstar. cbn [rmatch rest before caps].
  destruct (rep_star_rest (cset_mem false CAny)
              (after b (take (length (chars "Sources:")) s))
              (drop (length (chars "Sources:")) s) []) as [b' ->].
  by eexists.
Qed.

Lemma startswith_app l s : startswith l s = true → s = l ++ drop (length l) s.
Proof.
  revert s. induction l as [|c l IH]; intros [|x s]; simpl; try done.
  intros [->%ascii_eqb_eq Hl]%andb_true_iff. f_equal. by apply IH.
Qed.

Lemma length_drop_while s :
  length s = line_length s + length (drop_while not_newline s).
Proof.
  induction s as [|c s IH]; simpl; [done|]. unfold not_newline at 1.
  destruct (ascii_eqb c newline); simpl; lia.
Qed.

Lemma line_length_sources t :
  line_length (chars "Sources:" ++ t) = 8 + line_length t.
Proof. reflexivity. Qed.

(** A match of [Sources:.*] covers the rest of the line it starts on. *)
Lemma match_here_sources_length b s :
  startswith (chars "Sources:") s = true →
  ∃ st, match_here false re_sources b s = Some st
        ∧ length s - length (rest st) = line_length s.
Proof.
  intros Hs. pose proof (match_here_sources b s) as Hm. rewrite Hs in Hm.
  destruct Hm as (st & Hm & Hrest). exists st. split; [done|].
  rewrite Hrest. apply startswith_app in Hs. rewrite Hs at 1 3.
  rewrite line_length_sources, length_app.
  change (length (chars "Sources:")) with 8 in *.
  pose proof (length_drop_while (drop 8 s)). lia.
Qed.

Lemma sub_delete_citations s :
  ∀ b, sub_from false re_sources b s 0 = delete_citations false s
       ∧ sub_from false re_sources b s (line_length s) = delete_citations true s.
Proof.
  induction s as [|c s IH]; intros b.
  - cbn [sub_from line_length delete_citations].
    by destruct (match_here false re_sources b []).
  - assert (sub_from false re_sources b (c :: s) 0 = delete_citations false (c :: s))
      as Hfirst.
    { pose proof (match_here_sources b (c :: s)) as Hm.
      destruct (startswith (chars "Sources:") (c :: s)) eqn:Hs.
      - destruct (match_here_sources_length b (c :: s) Hs) as (st & Hst & Hlen).
        assert (ascii_eqb c newline = false) as Hc.
        { simpl in Hs. apply andb_true_iff in Hs as [<-%ascii_eqb_eq _]. done. }
        cbn [sub_from delete_citations line_length] in *.
        rewrite Hst, Hlen, Hc, Hs, orb_true_r. apply IH.
      - cbn [sub_from delete_citations]. rewrite Hm, Hs, orb_false_l.
        destruct (ascii_eqb c newline); f_equal; apply IH. }
    split; [done|]. cbn [line_length delete_citations].
    destruct (ascii_eqb c newline) eqn:Hc.
    + rewrite Hfirst. cbn [delete_citations]. by rewrite Hc.
    + cbn [sub_from orb]. apply IH.
Qed.

(** [re.sub(r"Sources:.*", "", s)] cuts every line at its first [Sources:]. *)
Lemma re_sub_delete_sources s :
  re_sub_delete false re_sources s = delete_citations false s.
Proof. apply sub_delete_citations. Qed.

(** C3 (amended). For a chunk that carries [filename] metadata,
    [generate_answer] asks the model once, cuts every line of the stripped
    response at its first [Sources:] (to the end of that line, not of the
    text), strips the result and appends a line break, [Sources: ] and the
    chunk's file name: the answer ends with the citation of exactly that
    file. *)
Theorem generate_answer_cites_chunk
    (llm : str → str) (policy_chunk : Chunk.t) (query filename : str) (w : world) :
  metadata_of w policy_chunk !! "filename"%string = Some filename →
  let prompt := answer_prompt (Chunk.text policy_chunk) query in
  generate_answer llm policy_chunk query w
  = (Ok (strip (delete_citations false (strip (llm prompt)))
         ++ citation_prefix ++ filename),
     World (heap w) (trace w ++ [LLMInvoke prompt])).
Proof.
  intros Hname prompt. unfold generate_answer, llm_invoke.
  unfold mbind, M_bind, emit, read_dict, lift, dict_getitem, mret, M_ret.
  cbn [heap trace]. unfold metadata_of in Hname.
  rewrite Hname, re_sub_delete_sources. reflexivity.
Qed.

(** C3 at a response that goes on after its own citation line. *)
Lemma generate_answer_cites_chunk_witness :
  generate_answer (λ _, chars response_with_note)
    (Chunk.Make (chars "Fifteen days of leave.") 0) (chars "How many days?") example_world
  = (Ok (strip (delete_citations false
                  (strip ((λ _, chars response_with_note)
                            (answer_prompt (chars "Fifteen days of leave.")
                               (chars "How many days?")))))
         ++ citation_prefix ++ chars "leave_policy_2024.txt"),
     World (heap example_world)
       (trace example_world
        ++ [LLMInvoke (answer_prompt (chars "Fifteen days of leave.")
                         (chars "How many days?"))])).
Proof.
  apply (generate_answer_cites_chunk (λ _, chars response_with_note)
           (Chunk.Make (chars "Fifteen days of leave.") 0) (chars "How many days?")
           (chars "leave_policy_2024.txt") example_world).
  vm_compute. reflexivity.
Defined.

(** C3 (counterexample). The model's response goes on after its own
    citation line: only that line is cut, the note after it stays, and the
    answer is not the one obtained by deleting from the first [Sources:]
    to the end of the text. *)
Lemma generate_answer_keeps_later_lines :
  fst (generate_answer (λ _, chars response_with_note)
         (Chunk.Make (chars "Fifteen days of leave.") 0) (chars "How many days?")
         example_world)
  = Ok (chars answer_with_note)
  ∧ chars answer_with_note
    ≠ answer_as_specified (chars response_with_note) (chars "leave_policy_2024.txt").
Proof.
  split; [vm_compute; reflexivity|]. vm_compute. discriminate.
Qed.

(** Without [filename] metadata the model is still asked, and the lookup
    then raises [KeyError]. *)
Example generate_answer_nameless :
  generate_answer (λ _, chars response_with_note)
    (Chunk.Make (chars "Fifteen days of leave.") 0) (chars "How many days?")
    nameless_world
  = (Raise KeyError,
     World (heap nameless_world)
       [LLMInvoke (answer_prompt (chars "Fifteen days of leave.") (chars "How many days?"))]).
Proof. vm_compute. reflexivity. Qed.

(** ** Every outcome of the resolver *)

Lemma policies_with_dates_nameless fromisoformat w chunks :
  existsb (nameless_dated fromisoformat w) chunks = true →
  policies_with_dates fromisoformat chunks w = (Raise KeyError, w).
Proof.
  induction chunks as [|c chunks IH]; [done|]. cbn [existsb policies_with_dates].
  unfold nameless_dated at 1, date_of, metadata_of.
  unfold mbind at 1, M_bind at 1, read_dict at 1.
  destruct (default ∅ (heap w !! Chunk.metadata c) !! "effective_date"%string)
    as [s|]; [destruct (nonempty s); [destruct (fromisoformat s) as [d|]|]|].
  1: destruct (default ∅ (heap w !! Chunk.metadata c) !! "filename"%string)
       as [name|] eqn:Hname.
  2: { intros _. unfold mbind, M_bind, lift, dict_getitem. by rewrite Hname. }
  1: unfold mbind at 1, M_bind at 1; unfold mbind at 2, M_bind at 2;
     unfold lift, dict_getitem; rewrite Hname.
  all: cbn [orb]; intros H; apply IH in H; unfold mbind, M_bind; cbn; by rewrite H.
Qed.

Lemma policies_with_dates_named fromisoformat w chunks :
  existsb (nameless_dated fromisoformat w) chunks = false →
  policies_with_dates fromisoformat chunks w
  = (Ok (dated_entries fromisoformat w chunks), w).
Proof.
  intros Hnone. apply policies_with_dates_run. intros c Hc [d Hd].
  destruct (metadata_of w c !! "filename"%string) as [name|] eqn:Hname; [by eexists|].
  assert (existsb (nameless_dated fromisoformat w) chunks = true) as Hex; [|congruence].
  apply existsb_exists. exists c. split; [by apply list_elem_of_In|].
  unfold nameless_dated. by rewrite Hd, Hname.
Qed.

Lemma same_awareness_spec x l :
  same_awareness (x :: l) = true ↔ ∀ y, y ∈ l → aware (fst x) = aware (fst y).
Proof.
  cbn [same_awareness]. rewrite forallb_forall. split.
  - intros H y Hy%list_elem_of_In. by apply eqb_prop, H.
  - intros H y Hy%list_elem_of_In. rewrite (H y Hy). apply eqb_reflx.
Qed.

Lemma same_awareness_cons x y l :
  same_awareness (x :: y :: l)
  = (Bool.eqb (aware (fst x)) (aware (fst y)) && same_awareness (y :: l))%bool.
Proof.
  cbn [same_awareness forallb].
  destruct (Bool.eqb (aware (fst x)) (aware (fst y))) eqn:Hxy; [|done].
  apply eqb_prop in Hxy. by rewrite Hxy.
Qed.

(** The sort returns exactly when all dates are naive or all are aware,
    and raises [TypeError] otherwise. *)
Lemma sort_desc_outcome l :
  if same_awareness l
  then ∃ l', sort_desc l = Ok l' ∧ (∀ y, y ∈ l' ↔ y ∈ l) ∧ head l' = newest l
  else sort_desc l = Raise TypeError.
Proof.
  induction l as [|x l IH]; [by exists []|].
  destruct l as [|y l].
  - exists [x]. done.
  - rewrite same_awareness_cons.
    destruct (same_awareness (y :: l)) eqn:Hl.
    + destruct IH as (s & Hs & Hmem & Hhead).
      destruct (Bool.eqb (aware (fst x)) (aware (fst y))) eqn:Hxy; cbn [andb].
      * apply sort_desc_same. apply eqb_prop in Hxy.
        destruct (same_awareness_spec y l) as [Hall _]. specialize (Hall Hl).
        assert (∀ z, z ∈ y :: l → aware (fst z) = aware (fst y)) as Hy.
        { intros z [->|Hz]%elem_of_cons; [done|]. symmetry. auto. }
        intros a c [->|Ha]%elem_of_cons [->|Hc]%elem_of_cons; auto.
        -- rewrite Hxy. symmetry. auto.
        -- rewrite Hxy. auto.
        -- rewrite (Hy a Ha). symmetry. auto.
      * change (sort_desc (x :: y :: l)) with (sort_desc (y :: l) ≫= insert_desc x).
        rewrite Hs, result_bind_Ok.
        destruct s as [|z s].
        { destruct (Hmem y) as [_ Hin]. specialize (Hin (list_elem_of_here _ _)).
          by apply elem_of_nil in Hin. }
        cbn [insert_desc]. rewrite dt_lt_mixed; [done|].
        apply eqb_false_iff in Hxy. intros Heq. apply Hxy. rewrite Heq.
        destruct (Hmem z) as [Hz _]. specialize (Hz (list_elem_of_here _ _)).
        apply elem_of_cons in Hz as [->|Hz]; [done|].
        destruct (same_awareness_spec y l) as [Hall _]. symmetry. by apply Hall.
    + rewrite andb_false_r.
      change (sort_desc (x :: y :: l)) with (sort_desc (y :: l) ≫= insert_desc x).
      by rewrite IH.
Qed.

Lemma newest_elem l x : newest l = Some x → x ∈ l.
Proof.
  revert x. induction l as [|y l IH]; intros x; [done|]. cbn [newest].
  destruct (newest l) as [z|].
  - destruct (_ <? _)%Z; intros [= <-]; [right; auto | by left].
  - intros [= <-]. by left.
Qed.

(** X1. Every outcome of [resolve_policy_conflicts], on any list and in any
    world, which it never changes: [KeyError] when a chunk with a parseable
    date has no [filename]; otherwise [IndexError] on the empty list, the
    first chunk when no date parses, [TypeError] when naive and aware dates
    meet in the sort, and else one of the dated chunks of the input. *)
Theorem resolve_policy_conflicts_outcome
    (fromisoformat : str → option datetime) (chunks : list Chunk.t) (w : world) :
  ∃ r, resolve_policy_conflicts fromisoformat chunks w = (r, w)
    ∧ if existsb (nameless_dated fromisoformat w) chunks then r = Raise KeyError
      else match dated_entries fromisoformat w chunks with
           | [] => match chunks with
                   | [] => r = Raise IndexError
                   | c :: _ => r = Ok c
                   end
           | dated =>
               if same_awareness dated
               then ∃ d c, r = Ok c ∧ c ∈ chunks
                           ∧ date_of fromisoformat w c = Some d
               else r = Raise TypeError
           end.
Proof.
  unfold resolve_policy_conflicts.
  destruct (existsb (nameless_dated fromisoformat w) chunks) eqn:Hnameless.
  - exists (Raise KeyError). split; [|done].
    unfold mbind, M_bind. by rewrite (policies_with_dates_nameless _ _ _ Hnameless).
  - rewrite (M_bind_Ok _ _ _ _ _ (policies_with_dates_named _ _ _ Hnameless)).
    destruct (dated_entries fromisoformat w chunks) as [|e l] eqn:Hdated;
      cbn [nonempty].
    + destruct chunks as [|c chunks]; by eexists.
    + pose proof (sort_desc_outcome (e :: l)) as Hsort.
      destruct (same_awareness (e :: l)).
      * destruct Hsort as (sorted & Hsort & Hmem & Hhead).
        destruct (newest (e :: l)) as [[d c]|] eqn:Hnew;
          [|by apply newest_None in Hnew].
        exists (Ok c). unfold mbind, M_bind, lift. rewrite Hsort.
        destruct sorted as [|x sorted]; [done|]. injection Hhead as ->.
        split; [done|]. exists d, c. split; [done|].
        apply newest_elem in Hnew. rewrite <- Hdated in Hnew.
        by apply elem_of_dated_entries in Hnew.
      * exists (Raise TypeError). unfold mbind, M_bind, lift. by rewrite Hsort.
Qed.

(** ** No citation of the model survives *)










(** ** The texts of chunks *)

Lemma rstrip_split_space t : ∃ sp, t = rstrip t ++ sp ∧ forallb is_space sp = true.
Proof.
  unfold rstrip. destruct (lstrip_split (rev t)) as (sp & Hsp & Hspace).
  exists (rev sp). split.
  - by rewrite <- rev_app_distr, <- Hsp, rev_involutive.
  - apply forallb_forall. intros c Hc%in_rev.
    by apply (proj1 (forallb_forall _ _) Hspace).
Qed.

Lemma strip_split s :
  ∃ sp1 sp2, s = sp1 ++ strip s ++ sp2
             ∧ forallb is_space sp1 = true ∧ forallb is_space sp2 = true.
Proof.
  destruct (lstrip_split s) as (sp1 & H1 & Hs1).
  destruct (rstrip_split_space (lstrip s)) as (sp2 & H2 & Hs2).
  exists sp1, sp2. unfold strip. by rewrite <- H2.
Qed.

Lemma length_strip s : length (strip s) ≤ length s.
Proof.
  destruct (strip_split s) as (sp1 & sp2 & Hs & _).
  rewrite Hs at 2. rewrite !length_app. lia.
Qed.

Lemma has_ink_spaces sp : forallb is_space sp = true → has_ink sp = false.
Proof.
  unfold has_ink. induction sp as [|c sp IH]; [done|]. cbn [forallb existsb].
  intros [-> H]%andb_true_iff. by rewrite IH.
Qed.

Lemma has_ink_app a b : has_ink (a ++ b) = (has_ink a || has_ink b)%bool.
Proof. apply existsb_app. Qed.

Lemma has_ink_strip s : has_ink (strip s) = has_ink s.
Proof.
  destruct (strip_split s) as (sp1 & sp2 & Hs & H1 & H2).
  rewrite Hs at 2. rewrite !has_ink_app, (has_ink_spaces _ H1), (has_ink_spaces _ H2).
  by rewrite orb_false_r.
Qed.

Lemma lstrip_spaces s : has_ink s = false → lstrip s = [].
Proof.
  unfold has_ink. induction s as [|c s IH]; [done|]. cbn [existsb lstrip].
  intros [Hc H]%orb_false_iff. apply negb_false_iff in Hc. rewrite Hc. auto.
Qed.

(** Stripping leaves something exactly when there is ink. *)
Lemma nonempty_strip s : nonempty (strip s) = has_ink s.
Proof.
  destruct (has_ink s) eqn:Hink.
  - destruct (strip s) eqn:Hs; [|done]. by rewrite <- has_ink_strip, Hs in Hink.
  - unfold strip. by rewrite (lstrip_spaces _ Hink).
Qed.

Lemma clean_strip s : clean s → strip s = s.
Proof.
  intros (_ & H1 & H2). unfold strip, rstrip.
  by rewrite (lstrip_id s H1), (lstrip_id _ H2), rev_involutive.
Qed.

Lemma strip_clean s : strip s ≠ [] → clean (strip s).
Proof.
  intros Hne. split; [done|].
  unfold strip, rstrip in *.
  pose proof (lstrip_no_lead s) as Ht. set (t := lstrip s) in *.
  destruct (lstrip_split (rev t)) as (sp & Hsp & _).
  pose proof (lstrip_no_lead (rev t)) as Hv. set (v := lstrip (rev t)) in *.
  assert (t = rev v ++ rev sp) as Htv.
  { rewrite <- rev_app_distr, <- Hsp. by rewrite rev_involutive. }
  split; [|by rewrite rev_involutive].
  destruct (rev v) as [|c r]; [done|]. rewrite Htv in Ht. done.
Qed.

Lemma clean_has_ink s : clean s → has_ink s = true.
Proof.
  intros (Hne & H1 & _). destruct s as [|c s]; [done|].
  unfold has_ink. cbn [existsb]. simpl in H1. by rewrite H1.
Qed.

Lemma paragraphs_clean content p : p ∈ paragraphs content → clean p.
Proof.
  unfold paragraphs. intros (q & -> & Hq)%list_elem_of_fmap.
  apply list_elem_of_In, filter_In in Hq as [_ Hq].
  apply strip_clean. by destruct (strip q).
Qed.

Lemma clean_space_app a b : clean a → clean b → clean (a ++ chars " " ++ b).
Proof.
  intros (Ha & Ha1 & _) (Hb & _ & Hb2). split; [by destruct a|]. split.
  - by destruct a.
  - rewrite !rev_app_distr. destruct (rev b) as [|c r] eqn:Hr; [|done].
    apply (f_equal (@rev ascii)) in Hr. rewrite rev_involutive in Hr. done.
Qed.

Lemma strip_space_cons s : clean s → strip (" "%char :: s) = s.
Proof.
  intros Hs. unfold strip. change (lstrip (" "%char :: s)) with (lstrip s).
  by apply clean_strip.
Qed.

(** X3. Every chunk's text is at most one character longer than the
    threshold, unless it is a single paragraph of its document: the
    separating space is not counted when a paragraph is appended. *)
Theorem chunk_text_bound (docs : list Document.t) (w : world) :
  ∃ chunks w', chunk_documents docs w = (Ok chunks, w')
    ∧ ∀ c, c ∈ chunks →
        length (Chunk.text c) ≤ S CHUNK_SIZE
        ∨ ∃ doc, doc ∈ docs ∧ Chunk.text c ∈ paragraphs (Document.content doc).
Proof.
  assert (∀ md (ps paras : list str) (buffer : str) w0,
            (∀ p, p ∈ paras → p ∈ ps) → (∀ p, p ∈ ps → strip p = p) →
            length buffer ≤ S CHUNK_SIZE ∨ buffer ∈ ps →
            ∃ cs w', chunk_paragraphs md paras buffer w0 = (Ok cs, w')
              ∧ ∀ c, c ∈ cs → length (Chunk.text c) ≤ S CHUNK_SIZE ∨ Chunk.text c ∈ ps)
    as Hloop.
  { intros md ps paras. induction paras as [|para paras IH];
      intros buffer w0 Hsub Hps Hbuf; cbn [chunk_paragraphs].
    - assert (length (strip buffer) ≤ S CHUNK_SIZE ∨ strip buffer ∈ ps) as Hout.
      { destruct Hbuf as [Hlen|Hin]; [|right; by rewrite Hps].
        left. pose proof (length_strip buffer). lia. }
      destruct (nonempty buffer).
      + destruct (dict_copy_extends md w0) as (l & w1 & Hc & _).
        rewrite (M_bind_Ok _ _ _ _ _ Hc). eexists _, _. split; [done|].
        by intros c ->%list_elem_of_singleton.
      + eexists _, _. split; [done|]. intros c Hc. by apply elem_of_nil in Hc.
    - destruct (length buffer + length para <=? CHUNK_SIZE) eqn:Hfit.
      + apply IH; [intros p Hp; apply Hsub; by right | done |].
        left. apply Nat.leb_le in Hfit. rewrite !length_app. simpl. lia.
      + assert (length (strip buffer) ≤ S CHUNK_SIZE ∨ strip buffer ∈ ps) as Hout.
        { destruct Hbuf as [Hlen|Hin]; [|right; by rewrite Hps].
          left. pose proof (length_strip buffer). lia. }
        destruct (dict_copy_extends md w0) as (l & w1 & Hc & _).
        destruct (IH para w1) as (cs & w' & Hrun & Hall);
          [intros p Hp; apply Hsub; by right | done | right; apply Hsub; by left |].
        rewrite (M_bind_Ok _ _ _ _ _ Hc), (M_bind_Ok _ _ _ _ _ Hrun).
        eexists _, _. split; [done|].
        intros c [->|Hin]%elem_of_cons; auto. }
  revert w. induction docs as [|doc docs IH]; intros w; cbn [chunk_documents].
  - eexists _, _. split; [done|]. intros c Hc. by apply elem_of_nil in Hc.
  - destruct (Hloop (Document.metadata doc) (paragraphs (Document.content doc))
                (paragraphs (Document.content doc)) [] w)
      as (cs1 & w1 & H1 & Hall1); [done | apply paragraphs_stripped | left; simpl; lia |].
    destruct (IH w1) as (cs2 & w' & H2 & Hall2).
    rewrite (M_bind_Ok _ _ _ _ _ H1), (M_bind_Ok _ _ _ _ _ H2).
    eexists _, _. split; [done|]. intros c [Hc|Hc]%elem_of_app.
    + destruct (Hall1 c Hc) as [?|?]; [by left|]. right. exists doc. split; [by left|done].
    + destruct (Hall2 c Hc) as [?|(d & Hd & ?)]; [by left|]. right. exists d.
      split; [by right|done].
Qed.

(** The bound of [chunk_text_bound] is attained: after a paragraph of 500
    characters, two paragraphs of 250 make one chunk of 501. *)
Example chunk_of_501_characters :
  (λ r, map (λ c, length (Chunk.text c)) <$> fst r)
    (chunk_documents
       [Document.Make (repeat "a"%char 500 ++ [newline] ++ repeat "b"%char 250
                       ++ [newline] ++ repeat "c"%char 250) 0] example_world)
  = Ok [500; 501].
Proof. vm_compute. reflexivity. Qed.

Lemma join_sp_cons p l : l ≠ [] → join_sp (p :: l) = p ++ chars " " ++ join_sp l.
Proof. by destruct l. Qed.

Lemma join_sp_app l1 l2 :
  l1 ≠ [] → l2 ≠ [] → join_sp (l1 ++ l2) = join_sp l1 ++ chars " " ++ join_sp l2.
Proof.
  intros H1 H2. induction l1 as [|p l1 IH]; [done|].
  destruct l1 as [|q l1].
  - cbn [app]. by rewrite join_sp_cons.
  - change ((p :: q :: l1) ++ l2) with (p :: ((q :: l1) ++ l2)).
    rewrite join_sp_cons by done. rewrite IH by done.
    rewrite (join_sp_cons p (q :: l1)) by done. by rewrite <- !app_assoc.
Qed.

Lemma clean_join_sp l : l ≠ [] → Forall clean l → clean (join_sp l).
Proof.
  intros Hne Hall. induction Hall as [|p l Hp Hall IH]; [done|].
  destruct l as [|q l]; [done|]. rewrite join_sp_cons by done.
  apply clean_space_app; [done|]. by apply IH.
Qed.

Lemma join_sp_nil l : Forall (λ s, s ≠ []) l → join_sp l = [] → l = [].
Proof.
  intros Hall. destruct Hall as [|p l Hp Hall]; [done|].
  destruct l as [|q l]; [done|]. rewrite join_sp_cons by done. by destruct p.
Qed.

Lemma buffer_of_strip bs buffer :
  Forall clean bs → buffer_of bs buffer → strip buffer = join_sp bs.
Proof.
  intros Hall Hb. destruct bs as [|b bs]; [by rewrite Hb|].
  pose proof (clean_join_sp (b :: bs) ltac:(done) Hall) as Hc.
  destruct Hb as [-> | ->]; [by apply clean_strip | by apply strip_space_cons].
Qed.

Lemma buffer_of_nonempty bs buffer :
  Forall clean bs → buffer_of bs buffer → nonempty buffer = nonempty bs.
Proof.
  intros Hall Hb. destruct bs as [|b bs]; [by rewrite Hb|].
  pose proof (clean_join_sp (b :: bs) ltac:(done) Hall) as (Hne & _).
  destruct Hb as [-> | ->]; [|done]. by destruct (join_sp (b :: bs)).
Qed.

Lemma buffer_of_snoc bs buffer para :
  buffer_of bs buffer → buffer_of (bs ++ [para]) (buffer ++ chars " " ++ para).
Proof.
  intros Hb. destruct bs as [|b bs].
  - rewrite Hb. by right.
  - change (buffer_of ((b :: bs) ++ [para]) (buffer ++ chars " " ++ para))
      with (buffer ++ chars " " ++ para = join_sp ((b :: bs) ++ [para])
            ∨ buffer ++ chars " " ++ para = " "%char :: join_sp ((b :: bs) ++ [para])).
    rewrite join_sp_app by done. destruct Hb as [-> | ->]; [by left | by right].
Qed.

Lemma chunk_paragraphs_texts md paras : ∀ bs buffer w,
  Forall clean paras → Forall clean bs → buffer_of bs buffer →
  ∃ cs w', chunk_paragraphs md paras buffer w = (Ok cs, w')
    ∧ join_sp (List.filter nonempty (map Chunk.text cs)) = join_sp (bs ++ paras)
    ∧ Forall clean (List.filter nonempty (map Chunk.text cs)).
Proof.
  induction paras as [|para paras IH]; intros bs buffer w Hparas Hbs Hb;
    cbn [chunk_paragraphs].
  - rewrite (buffer_of_nonempty bs buffer Hbs Hb), app_nil_r.
    destruct bs as [|b bs]; cbn [nonempty].
    + eexists _, _. by split.
    + destruct (dict_copy_extends md w) as (l & w1 & Hc & _).
      rewrite (M_bind_Ok _ _ _ _ _ Hc). eexists _, _. split; [done|].
      cbn [map Chunk.text]. rewrite (buffer_of_strip _ _ Hbs Hb).
      pose proof (clean_join_sp (b :: bs) ltac:(done) Hbs) as Hc'.
      cbn [List.filter]. destruct (join_sp (b :: bs)) eqn:Hj; [by destruct Hc'|].
      cbn [nonempty join_sp]. split; [done|]. by constructor.
  - apply Forall_cons in Hparas as [Hpara Hparas].
    destruct (length buffer + length para <=? CHUNK_SIZE).
    + destruct (IH (bs ++ [para]) (buffer ++ chars " " ++ para) w)
        as (cs & w' & Hrun & Hj & Hcl);
        [done | apply Forall_app; split; [done | by constructor]
         | by apply buffer_of_snoc |].
      eexists _, _. split; [done|]. by rewrite Hj, <- app_assoc.
    + destruct (dict_copy_extends md w) as (l & w1 & Hc & _).
      destruct (IH [para] para w1) as (cs & w' & Hrun & Hj & Hcl);
        [done | by constructor | by left |].
      rewrite (M_bind_Ok _ _ _ _ _ Hc), (M_bind_Ok _ _ _ _ _ Hrun).
      eexists _, _. split; [done|]. cbn [map Chunk.text List.filter].
      rewrite (buffer_of_strip _ _ Hbs Hb).
      destruct bs as [|b bs]; [done|].
      pose proof (clean_join_sp (b :: bs) ltac:(done) Hbs) as Hc'.
      destruct (join_sp (b :: bs)) eqn:Hjb; [by destruct Hc'|]. cbn [nonempty].
      rewrite <- Hjb in *. split; [|by constructor].
      assert (List.filter nonempty (map Chunk.text cs) ≠ []) as Hne.
      { intros Hnil. rewrite Hnil in Hj.
        change ([para] ++ paras) with (para :: paras) in Hj.
        assert (clean (join_sp (para :: paras))) as (Hne & _)
          by (apply clean_join_sp; [done | by constructor]).
        by rewrite <- Hj in Hne. }
      rewrite join_sp_cons by done. rewrite Hj.
      symmetry. by apply (join_sp_app (b :: bs) (para :: paras)).
Qed.

Lemma join_sp_congr (t1 t2 p1 p2 : list str) :
  Forall clean t1 → Forall clean p1 → Forall clean t2 → Forall clean p2 →
  join_sp t1 = join_sp p1 → join_sp t2 = join_sp p2 →
  join_sp (t1 ++ t2) = join_sp (p1 ++ p2).
Proof.
  assert (∀ l, Forall clean l → join_sp l = [] → l = []) as Hnil.
  { intros l Hl. apply join_sp_nil. eapply Forall_impl; [done|]. by intros s [? _]. }
  assert (∀ a b, Forall clean a → Forall clean b → join_sp a = join_sp b →
                 a = [] → b = []) as Hsame.
  { intros a b Ha Hb Hab ->. apply Hnil; [done|]. by rewrite <- Hab. }
  intros Ht1 Hp1 Ht2 Hp2 H1 H2.
  destruct (decide (t1 = [])) as [E1|E1].
  { rewrite E1, (Hsame t1 p1) by done. done. }
  destruct (decide (t2 = [])) as [E2|E2].
  { rewrite E2, (Hsame t2 p2), !app_nil_r by done. done. }
  assert (p1 ≠ []) by (intros E; by apply E1, (Hsame p1 t1)).
  assert (p2 ≠ []) by (intros E; by apply E2, (Hsame p2 t2)).
  rewrite !join_sp_app by done. by rewrite H1, H2.
Qed.

(** X4. Chunking neither loses, reorders nor alters text: the non-empty
    chunk texts, joined by single spaces, are the stripped non-blank lines
    of the documents, joined by single spaces. *)
Theorem chunk_documents_preserves_text (docs : list Document.t) (w : world) :
  ∃ chunks w', chunk_documents docs w = (Ok chunks, w')
    ∧ join_sp (List.filter nonempty (map Chunk.text chunks))
      = join_sp (all_paragraphs docs).
Proof.
  assert (∀ docs, Forall clean (all_paragraphs docs)) as Hclean.
  { intros ds. apply Forall_forall. intros p Hp. unfold all_paragraphs in Hp.
    apply list_elem_of_In, in_concat in Hp as (ps & Hps & Hp).
    apply in_map_iff in Hps as (d & <- & _).
    by apply (paragraphs_clean (Document.content d)), list_elem_of_In. }
  enough (∃ chunks w', chunk_documents docs w = (Ok chunks, w')
            ∧ join_sp (List.filter nonempty (map Chunk.text chunks))
              = join_sp (all_paragraphs docs)
            ∧ Forall clean (List.filter nonempty (map Chunk.text chunks)))
    as (cs & w' & ? & ? & _) by (by exists cs, w').
  revert w. induction docs as [|doc docs IH]; intros w; cbn [chunk_documents].
  - eexists _, _. by split.
  - destruct (chunk_paragraphs_texts (Document.metadata doc)
                (paragraphs (Document.content doc)) [] [] w)
      as (cs1 & w1 & H1 & Hj1 & Hc1); [|done|done|].
    { apply Forall_forall. intros p Hp. by apply (paragraphs_clean (Document.content doc)). }
    destruct (IH w1) as (cs2 & w' & H2 & Hj2 & Hc2).
    rewrite (M_bind_Ok _ _ _ _ _ H1), (M_bind_Ok _ _ _ _ _ H2).
    eexists _, _. split; [done|]. rewrite map_app, List.filter_app. split.
    + change (all_paragraphs (doc :: docs))
        with (paragraphs (Document.content doc) ++ all_paragraphs docs).
      apply join_sp_congr; try done.
      apply Forall_forall. intros p Hp. by apply (paragraphs_clean (Document.content doc)).
    + by apply Forall_app.
Qed.

Lemma chunk_paragraphs_inked md paras : ∀ buffer w,
  Forall clean paras → has_ink buffer = true →
  ∃ cs w', chunk_paragraphs md paras buffer w = (Ok cs, w')
    ∧ Forall (λ c, clean (Chunk.text c)) cs.
Proof.
  induction paras as [|para paras IH]; intros buffer w Hparas Hink;
    cbn [chunk_paragraphs].
  - assert (clean (strip buffer)) as Hc.
    { apply strip_clean. pose proof (nonempty_strip buffer) as Hn.
      rewrite Hink in Hn. by destruct (strip buffer). }
    destruct buffer as [|c buffer]; [done|]. cbn [nonempty].
    destruct (dict_copy_extends md w) as (l & w1 & Hcopy & _).
    rewrite (M_bind_Ok _ _ _ _ _ Hcopy). eexists _, _. split; [done|].
    by constructor.
  - apply Forall_cons in Hparas as [Hpara Hparas].
    destruct (length buffer + length para <=? CHUNK_SIZE).
    + apply IH; [done|]. by rewrite has_ink_app, Hink.
    + assert (clean (strip buffer)) as Hc.
      { apply strip_clean. pose proof (nonempty_strip buffer) as Hn.
        rewrite Hink in Hn. by destruct (strip buffer). }
      destruct (dict_copy_extends md w) as (l & w1 & Hcopy & _).
      destruct (IH para w1 Hparas (clean_has_ink _ Hpara)) as (cs & w' & Hrun & Hall).
      rewrite (M_bind_Ok _ _ _ _ _ Hcopy), (M_bind_Ok _ _ _ _ _ Hrun).
      eexists _, _. split; [done|]. by constructor.
Qed.

Lemma filter_blank_clean cs :
  Forall (λ c, clean (Chunk.text c)) cs → List.filter blank cs = [].
Proof.
  induction 1 as [|c cs (Hne & _) _ IH]; [done|]. cbn [List.filter]. unfold blank at 1.
  by destruct (Chunk.text c).
Qed.

(** X5. A chunk without text arises exactly from a document whose first
    paragraph is longer than the threshold, once for each such document;
    every other chunk text is non-empty and has no white space at either
    end. *)
Theorem chunk_documents_blank_chunks (docs : list Document.t) (w : world) :
  ∃ chunks w', chunk_documents docs w = (Ok chunks, w')
    ∧ length (List.filter blank chunks) = length (List.filter oversize_start docs)
    ∧ ∀ c, c ∈ chunks → Chunk.text c = [] ∨ clean (Chunk.text c).
Proof.
  revert w. induction docs as [|doc docs IH]; intros w; cbn [chunk_documents].
  - eexists _, _. split; [done|]. split; [done|]. intros c Hc. by apply elem_of_nil in Hc.
  - assert (∃ cs1 w1, chunk_paragraphs (Document.metadata doc)
                        (paragraphs (Document.content doc)) [] w = (Ok cs1, w1)
              ∧ length (List.filter blank cs1) = (if oversize_start doc then 1 else 0)
              ∧ ∀ c, c ∈ cs1 → Chunk.text c = [] ∨ clean (Chunk.text c))
      as (cs1 & w1 & H1 & Hn1 & Hall1).
    { unfold oversize_start.
      assert (Forall clean (paragraphs (Document.content doc))) as Hclean.
      { apply Forall_forall. intros p Hp.
        by apply (paragraphs_clean (Document.content doc)). }
      destruct (paragraphs (Document.content doc)) as [|p rest].
      - eexists _, _. split; [done|]. split; [done|].
        intros c Hc. by apply elem_of_nil in Hc.
      - apply Forall_cons in Hclean as [Hp Hrest]. cbn [chunk_paragraphs].
        change (length (@nil ascii) + length p <=? CHUNK_SIZE)
          with (length p <=? CHUNK_SIZE).
        rewrite Nat.ltb_antisym. destruct (length p <=? CHUNK_SIZE); cbn [negb].
        + destruct (chunk_paragraphs_inked (Document.metadata doc) rest
                      ([] ++ chars " " ++ p) w Hrest) as (cs & w' & Hrun & Hall).
          { by rewrite !has_ink_app, (clean_has_ink _ Hp), !orb_true_r. }
          eexists _, _. split; [done|]. rewrite (filter_blank_clean _ Hall).
          split; [done|]. intros c Hc. right.
          by apply (proj1 (Forall_forall _ _) Hall).
        + destruct (dict_copy_extends (Document.metadata doc) w) as (l & w0 & Hcopy & _).
          destruct (chunk_paragraphs_inked (Document.metadata doc) rest p w0 Hrest
                      (clean_has_ink _ Hp)) as (cs & w' & Hrun & Hall).
          rewrite (M_bind_Ok _ _ _ _ _ Hcopy), (M_bind_Ok _ _ _ _ _ Hrun).
          eexists _, _. split; [done|]. cbn [List.filter]. unfold blank at 1.
          cbn [Chunk.text strip lstrip rstrip rev nonempty negb length].
          rewrite (filter_blank_clean _ Hall). split; [done|].
          intros c [->|Hc]%elem_of_cons; [by left|]. right.
          by apply (proj1 (Forall_forall _ _) Hall). }
    destruct (IH w1) as (cs2 & w' & H2 & Hn2 & Hall2).
    rewrite (M_bind_Ok _ _ _ _ _ H1), (M_bind_Ok _ _ _ _ _ H2).
    eexists _, _. split; [done|]. split.
    + rewrite List.filter_app, length_app, Hn1, Hn2. cbn [List.filter].
      by destruct (oversize_start doc).
    + intros c [Hc|Hc]%elem_of_app; auto.
Qed.

(** ** Dates need four digits *)

Lemma four_digits_app a z : four_digits a = true → four_digits (a ++ z) = true.
Proof.
  unfold four_digits. intros [Hlen%Nat.leb_le Hd]%andb_true_iff.
  apply andb_true_iff. split.
  - apply Nat.leb_le. rewrite length_app. lia.
  - by rewrite take_app_le by lia.
Qed.

Lemma first_four_digits_app a z :
  first_four_digits (a ++ z) = None →
  first_four_digits a = None ∧ first_four_digits z = None.
Proof.
  induction a as [|c a IH].
  - intros H. split; [done|apply H].
  - change ((c :: a) ++ z) with (c :: (a ++ z)). cbn [first_four_digits].
    destruct (four_digits (c :: a)) eqn:Ha.
    + apply (four_digits_app _ z) in Ha.
      change ((c :: a) ++ z) with (c :: (a ++ z)) in Ha. by rewrite Ha.
    + destruct (four_digits (c :: a ++ z)); [done|]. apply IH.
Qed.

Lemma forallb_take {A} (f : A → bool) n l :
  forallb f l = true → forallb f (take n l) = true.
Proof.
  revert n. induction l as [|x l IH]; intros [|n]; try done. cbn [forallb take].
  intros [-> H]%andb_true_iff. by rewrite IH.
Qed.

Lemma first_four_digits_run w :
  forallb is_digit w = true → 4 ≤ length w → first_four_digits w ≠ None.
Proof.
  intros Hd Hlen.
  assert (four_digits w = true) as H4.
  { unfold four_digits. apply andb_true_iff. split; [by apply Nat.leb_le|].
    by apply forallb_take. }
  destruct w; cbn [first_four_digits]; by rewrite H4.
Qed.

Lemma sem_needs_four_digits ic r : ∀ b w nxt c c',
  needs_four_digits r = true → sem ic r b w nxt c c' → first_four_digits w ≠ None.
Proof.
  induction r as [x|cs|cs lo hi g|r1 IH1 r2 IH2|r1 IH1 r2 IH2|i r1 IH1| |];
    intros b w nxt c c' Hn Hsem; cbn [needs_four_digits sem] in *; try done.
  - destruct cs; try done. destruct Hsem as (Hd & Hlo & _). apply Nat.leb_le in Hn.
    apply first_four_digits_run; [done | lia].
  - destruct Hsem as (w1 & w2 & c1 & -> & H1 & H2).
    intros [Hw1 Hw2]%first_four_digits_app.
    apply orb_true_iff in Hn as [Hn|Hn]; [by eapply IH1 | by eapply IH2].
  - apply andb_true_iff in Hn as [Hn1 Hn2].
    destruct Hsem as [H|H]; [by eapply IH1 | by eapply IH2].
  - destruct Hsem as (c1 & H & _). by eapply IH1.
Qed.

(** An expression that needs four digits finds nothing in a text without. *)
Lemma re_search_needs_four_digits ic r s :
  needs_four_digits r = true → first_four_digits s = None → re_search ic r s = None.
Proof.
  intros Hn Hs. destruct (re_search ic r s) as [m|] eqn:Hm; [|done].
  apply re_search_sound in Hm as (b' & pre & w & s' & -> & Hsem).
  apply first_four_digits_app in Hs as [_ [Hw _]%first_four_digits_app].
  by apply (sem_needs_four_digits _ _ _ _ _ _ _ Hn) in Hsem.
Qed.

Lemma re_search_year20_needs_four_digits s :
  first_four_digits s = None → re_search false re_year20 s = None.
Proof.
  intros Hs. destruct (re_search false re_year20 s) as [m|] eqn:Hm; [|done].
  apply re_search_sound in Hm as (b' & pre & w & s' & -> & Hsem).
  apply first_four_digits_app in Hs as [_ [Hw _]%first_four_digits_app].
  cbn in Hsem. break_sem. subst.
  repeat match goal with H : ascii_eqb _ _ = true |- _ => apply ascii_eqb_eq in H; subst end.
  match goal with H : ∀ n, Some 2 = Some n → _ |- _ => specialize (H 2 eq_refl) end.
  match goal with H : forallb _ ?w = true |- _ =>
    destruct w as [|d1 [|d2 [|]]]; simpl in *; try lia;
    apply andb_true_iff in H as [Hd1 [Hd2 _]%andb_true_iff] end.
  revert Hw. cbn [app first_four_digits]. unfold four_digits at 1.
  cbn [length take forallb Nat.leb andb]. by rewrite Hd1, Hd2.
Qed.

Lemma is_digit_lower c : is_digit (lower_char c) = is_digit c.
Proof. destruct c as [[] [] [] [] [] [] [] []]; vm_compute; reflexivity. Qed.

Lemma first_four_digits_lower s :
  first_four_digits s = None → first_four_digits (lower s) = None.
Proof.
  assert (∀ l, forallb is_digit (lower l) = forallb is_digit l) as Hall.
  { induction l as [|c l IH]; [done|]. cbn [lower map forallb].
    rewrite is_digit_lower. f_equal. apply IH. }
  assert (∀ l, four_digits (lower l) = four_digits l) as H4.
  { intros l. unfold four_digits. unfold lower at 1. rewrite length_map. f_equal.
    unfold lower. rewrite <- fmap_take. apply Hall. }
  induction s as [|c s IH]; [done|].
  change (lower (c :: s)) with (lower_char c :: lower s). cbn [first_four_digits].
  change (lower_char c :: lower s) with (lower (c :: s)). rewrite H4.
  by destruct (four_digits (c :: s)).
Qed.

Lemma extract_date_from_filename_no_digits filename :
  first_four_digits filename = None → extract_date_from_filename filename = Ok None.
Proof.
  intros H. unfold extract_date_from_filename, filename_year, filename_full_date,
    filename_month_year.
  rewrite !re_search_needs_four_digits; try done. by apply first_four_digits_lower.
Qed.

Lemma extract_date_from_content_no_digits text :
  first_four_digits text = None → extract_date_from_content text = Ok None.
Proof.
  intros H. unfold extract_date_from_content, content_effective,
    content_effective_paren, content_updated, content_as_of, content_year.
  rewrite !re_search_needs_four_digits by done.
  rewrite re_search_year20_needs_four_digits; [done|].
  rewrite <- (take_drop 200 text) in H. by apply first_four_digits_app in H as [? _].
Qed.

(** X6. Without four consecutive digits in the text and in the file name
    no strategy finds a date: [extract_effective_date] is the modification
    time of the file when a path is given and exists, and 1 January 1970
    otherwise. *)
Theorem effective_date_without_digits
    (path_exists : str → bool) (getmtime : str → datetime)
    (text filename : str) (filepath : option str) :
  first_four_digits text = None →
  first_four_digits filename = None →
  extract_effective_date path_exists getmtime text filename filepath
  = Ok (match filepath with
        | Some p =>
            if (nonempty p && path_exists p)%bool then getmtime p
            else DateTime 1970 1 1 0 0 0 0 None
        | None => DateTime 1970 1 1 0 0 0 0 None
        end).
Proof.
  intros Ht Hf. unfold extract_effective_date.
  rewrite (extract_date_from_content_no_digits _ Ht), result_bind_Ok.
  rewrite (extract_date_from_filename_no_digits _ Hf), result_bind_Ok.
  destruct filepath as [p|]; [|done]. by destruct (nonempty p && path_exists p)%bool.
Qed.

Lemma effective_date_without_digits_witness :
  extract_effective_date (λ _, true) (λ _, DateTime 2024 5 17 10 30 0 0 None)
    (chars "Travel is reimbursed within 30 days.") (chars "travel_policy_v2.txt")
    (Some (chars "data/travel_policy_v2.txt"))
  = Ok (DateTime 2024 5 17 10 30 0 0 None).
Proof.
  apply (effective_date_without_digits (λ _, true)
           (λ _, DateTime 2024 5 17 10 30 0 0 None)
           (chars "Travel is reimbursed within 30 days.") (chars "travel_policy_v2.txt")
           (Some (chars "data/travel_policy_v2.txt"))); vm_compute; reflexivity.
Defined.

(** ** The dates found are days of the calendar *)

Lemma datetime_new_calendar y m d dt : datetime_new y m d = Ok dt → calendar_date dt.
Proof.
  unfold datetime_new. case_match eqn:H; [|done]. intros [= <-].
  repeat (apply andb_true_iff in H as [H ?]).
  repeat match goal with H : (_ <=? _)%Z = true |- _ => apply Z.leb_le in H end.
  unfold calendar_date. cbn. repeat split; first [lia | reflexivity].
Qed.

Lemma fmap_Some_calendar (r : result datetime) d :
  (∀ dt, r = Ok dt → calendar_date dt) → Some <$> r = Ok (Some d) → calendar_date d.
Proof. destruct r; [|done]. intros H [= <-]. by apply H. Qed.

Lemma strptime_calendar data fmt dt : strptime data fmt = Ok dt → calendar_date dt.
Proof. unfold strptime. repeat case_match; try done. apply datetime_new_calendar. Qed.

Lemma try_strptime_calendar data fmt d :
  try_strptime data fmt = Ok (Some d) → calendar_date d.
Proof.
  unfold try_strptime, try_except_ValueError.
  destruct (strptime data fmt) as [dt|e] eqn:H; cbn.
  - intros [= <-]. by eapply strptime_calendar.
  - by destruct e.
Qed.

Lemma or_else_calendar (first next : result (option datetime)) d :
  (∀ d, first = Ok (Some d) → calendar_date d) →
  (∀ d, next = Ok (Some d) → calendar_date d) →
  or_else first next = Ok (Some d) → calendar_date d.
Proof.
  intros H1 H2. unfold or_else. destruct first as [[d1|]|]; cbn; [|auto|done].
  intros [= <-]. by apply H1.
Qed.

Lemma first_format_calendar data fmts d :
  first_format data fmts = Ok (Some d) → calendar_date d.
Proof.
  revert d. induction fmts as [|fmt fmts IH]; intros d; cbn [first_format].
  - by intros [=].
  - apply or_else_calendar; [intros d'; apply try_strptime_calendar | done].
Qed.

Lemma result_bind_inv {A B} (a : result A) (f : A → result B) v :
  a ≫= f = Ok v → ∃ x, a = Ok x ∧ f x = Ok v.
Proof. destruct a; [|done]. by eexists. Qed.

Ltac calendar_inv :=
  repeat match goal with
         | H : Ok _ = Ok _ |- _ => injection H as H; subst
         | H : _ ≫= _ = Ok _ |- _ => apply result_bind_inv in H as (? & ? & H)
         | H : Some <$> datetime_new _ _ _ = Ok (Some _) |- _ =>
             apply fmap_Some_calendar in H; [done | apply datetime_new_calendar]
         | H : Some <$> strptime _ _ = Ok (Some _) |- _ =>
             apply fmap_Some_calendar in H; [done | intros ?; apply strptime_calendar]
         | H : try_strptime _ _ = Ok (Some _) |- _ => by eapply try_strptime_calendar
         | H : first_format _ _ = Ok (Some _) |- _ => by eapply first_format_calendar
         | H : context [match ?x with _ => _ end] |- _ => destruct x eqn:?; try done
         end.

Lemma extract_date_from_filename_calendar filename d :
  extract_date_from_filename filename = Ok (Some d) → calendar_date d.
Proof.
  unfold extract_date_from_filename.
  revert d. repeat (intros d0; apply or_else_calendar; clear d0). all: intros d H.
  - unfold filename_year in H. calendar_inv.
  - unfold filename_full_date, try_except_ValueError in H. calendar_inv.
  - unfold filename_month_year in H. calendar_inv.
Qed.

Lemma extract_date_from_content_calendar text d :
  extract_date_from_content text = Ok (Some d) → calendar_date d.
Proof.
  unfold extract_date_from_content.
  revert d. repeat (intros d0; apply or_else_calendar; clear d0). all: intros d H.
  - unfold content_effective in H. calendar_inv.
  - unfold content_effective_paren in H. calendar_inv.
  - unfold content_updated, try_except_ValueError in H. calendar_inv.
  - unfold content_as_of in H. calendar_inv.
  - unfold content_year in H. calendar_inv.
Qed.

(** X7. [extract_effective_date] always returns, and what it returns is a
    day of the calendar at midnight without time zone, unless it is the
    modification time of the file at the path given. *)
Theorem effective_date_is_calendar_date
    (path_exists : str → bool) (getmtime : str → datetime)
    (text filename : str) (filepath : option str) :
  ∃ d, extract_effective_date path_exists getmtime text filename filepath = Ok d
    ∧ (calendar_date d
       ∨ ∃ p, filepath = Some p ∧ nonempty p = true ∧ path_exists p = true
              ∧ d = getmtime p).
Proof.
  unfold extract_effective_date.
  destruct (extract_date_from_content_total text) as [[d|] Hc]; rewrite Hc, result_bind_Ok.
  { exists d. split; [done|]. left. by eapply extract_date_from_content_calendar. }
  destruct (extract_date_from_filename_total filename) as [[d|] Hf];
    rewrite Hf, result_bind_Ok.
  { exists d. split; [done|]. left. by eapply extract_date_from_filename_calendar. }
  assert (calendar_date (DateTime 1970 1 1 0 0 0 0 None)) as Hepoch.
  { by apply (datetime_new_calendar 1970 1 1). }
  destruct filepath as [p|]; [|by eexists; split; [|left]].
  destruct (nonempty p && path_exists p)%bool eqn:Hp; [|by eexists; split; [|left]].
  apply andb_true_iff in Hp as [? ?]. eexists. split; [done|]. right. by exists p.
Qed.

(** ** Ingestion *)

Section IngestionFacts.
Variable path_exists : str → bool.
Variable getmtime : str → datetime.
Variable listdir : str → list str.
Variable read_file : str → str.

Lemma load_files_spec filenames w :
  ∃ docs w', load_files path_exists getmtime read_file filenames w = (Ok docs, w')
    ∧ extends w w' (map Document.metadata docs)
    ∧ Forall2 (document_of path_exists getmtime read_file w') (text_files filenames) docs.
Proof.
  revert w. induction filenames as [|filename filenames IH]; intros w;
    cbn [load_files text_files List.filter].
  - exists [], w. split; [done|]. split; [apply extends_refl | constructor].
  - destruct (endswith (chars ".txt") filename); cbn [negb]; [|apply IH].
    destruct (extract_effective_date_returns path_exists getmtime
                (read_file (path_join KNOWLEDGE_BASE_DIR filename)) filename
                (Some (path_join KNOWLEDGE_BASE_DIR filename))) as [d Hd].
    unfold mbind at 1, M_bind at 1, lift at 1. rewrite Hd.
    destruct (new_dict_extends (document_metadata filename d) w)
      as (l & w1 & Hnew & Hext1 & Hl).
    unfold document_metadata in Hnew. rewrite (M_bind_Ok _ _ _ _ _ Hnew).
    destruct (IH w1) as (docs & w' & Hrun & Hext2 & Hall).
    rewrite (M_bind_Ok _ _ _ _ _ Hrun). eexists _, w'. split; [done|].
    split; [apply (extends_trans _ _ _ [l] _ Hext1 Hext2)|].
    constructor; [|done]. split; [done|]. exists d. split; [done|].
    by apply (extends_lookup _ _ _ _ _ Hext2).
Qed.

End IngestionFacts.

(** X8. [load_documents] returns one document for each [.txt] entry of the
    directory listing, in the order of the listing, and nothing for the
    other entries; a document holds the content of its file and a metadata
    dictionary of its own with the file name, its class, and the effective
    date and year of [extract_effective_date]. *)
Theorem load_documents_one_per_text_file
    (path_exists : str → bool) (getmtime : str → datetime)
    (listdir : str → list str) (read_file : str → str) (w : world) :
  ∃ docs w',
    load_documents path_exists getmtime listdir read_file w = (Ok docs, w')
    ∧ extends w w' (map Document.metadata docs)
    ∧ Forall2 (document_of path_exists getmtime read_file w')
        (text_files (listdir KNOWLEDGE_BASE_DIR)) docs.
Proof. apply load_files_spec. Qed.

Lemma is_policy_document_metadata filename d :
  is_policy (document_metadata filename d) = contains (chars "policy") (lower filename).
Proof.
  unfold is_policy, document_metadata, classify_document.
  change (list_to_map _ !! "doc_type"%string)
    with (Some (if contains (chars "policy") (lower filename)
                then chars "policy" else chars "noise")).
  by destruct (contains (chars "policy") (lower filename)).
Qed.

(** X9. Ingestion end to end: every chunk that [chunk_documents] makes of
    the documents of [load_documents] carries the metadata of a [.txt] file
    of the directory, with that file's effective date; [filter_noise] keeps
    it exactly when the file name contains [policy] in any letter case. *)
Theorem ingested_chunks_carry_file_metadata
    (path_exists : str → bool) (getmtime : str → datetime)
    (listdir : str → list str) (read_file : str → str) (w : world) :
  ∃ docs chunks w1 w2,
    load_documents path_exists getmtime listdir read_file w = (Ok docs, w1)
    ∧ chunk_documents docs w1 = (Ok chunks, w2)
    ∧ ∀ c, c ∈ chunks →
        ∃ filename d,
          filename ∈ text_files (listdir KNOWLEDGE_BASE_DIR)
          ∧ extract_effective_date path_exists getmtime
              (read_file (path_join KNOWLEDGE_BASE_DIR filename)) filename
              (Some (path_join KNOWLEDGE_BASE_DIR filename)) = Ok d
          ∧ heap w2 !! Chunk.metadata c = Some (document_metadata filename d)
          ∧ policy_chunk w2 c = contains (chars "policy") (lower filename).
Proof.
  unfold load_documents.
  destruct (load_files_spec path_exists getmtime read_file
              (listdir KNOWLEDGE_BASE_DIR) w) as (docs & w1 & Hload & Hext & Hdocs).
  destruct (chunk_documents_spec docs w1) as (chunks & w2 & Hchunk & _ & Hmeta).
  { intros doc Hdoc. destruct Hext as (_ & _ & _ & _ & Hdom). apply Hdom. right.
    apply list_elem_of_fmap. by exists doc. }
  exists docs, chunks, w1, w2. split; [done|]. split; [done|].
  intros c Hc. destruct (Hmeta c Hc) as (doc & Hdoc & Hlook).
  apply list_elem_of_lookup in Hdoc as [i Hi].
  destruct (Forall2_lookup_r _ _ _ _ _ Hdocs Hi) as (filename & Hf & _ & d & Hd & Hmd).
  exists filename, d. split; [by eapply list_elem_of_lookup_2|]. split; [done|].
  rewrite Hlook, Hmd. split; [done|].
  unfold policy_chunk, metadata_of. rewrite Hlook, Hmd. cbn [default].
  apply is_policy_document_metadata.
Qed.

(** ** A run that answers *)







